(** * bigquery-emulator: the process-lifecycle coordinator

    A shallow embedding of [cmd/bigquery-emulator/main.go]: the option
    record, the exit codes, [run], [parseEnv], [parseOpt] and [runServer].

    The sequential part of [runServer] (version request, required-flag
    check, storage selection, tenant assembly, engine construction, seeding
    and log configuration) is a program in a small writer/early-return
    monad whose log records every call made on a collaborator and every
    line printed.  The concurrent part (the signal-watch goroutine, the
    serve goroutine and the [select] on the [done] channel) is a transition
    system over the program counters of the three tasks, driven by a
    schedule of actions. *)

From Stdlib Require Import String Ascii List Bool NArith ZArith Lia DecimalString.
Import ListNotations.
Open Scope string_scope.

(** ** Go values used by the program *)

(** The character [\n] of Go string literals. *)
Definition nl : string := String (ascii_of_nat 10) EmptyString.

(** [%d] applied to an unsigned integer. *)
Definition fmt_d (n : N) : string := NilZero.string_of_uint (N.to_uint n).

(** Package [github.com/jessevdk/go-flags]: the kinds of parser error. *)
Module flags.

Inductive ErrorType : Set :=
| ErrUnknown | ErrExpectedArgument | ErrUnknownFlag | ErrUnknownGroup
| ErrMarshal | ErrHelp | ErrNoArgumentForBool | ErrRequired
| ErrShortNameTooLong | ErrDuplicatedFlag | ErrTag | ErrCommandRequired
| ErrUnknownCommand | ErrInvalidChoice | ErrInvalidTag.

Definition ErrorType_eqb (a b : ErrorType) : bool :=
  match a, b with
  | ErrUnknown, ErrUnknown | ErrExpectedArgument, ErrExpectedArgument
  | ErrUnknownFlag, ErrUnknownFlag | ErrUnknownGroup, ErrUnknownGroup
  | ErrMarshal, ErrMarshal | ErrHelp, ErrHelp
  | ErrNoArgumentForBool, ErrNoArgumentForBool | ErrRequired, ErrRequired
  | ErrShortNameTooLong, ErrShortNameTooLong
  | ErrDuplicatedFlag, ErrDuplicatedFlag | ErrTag, ErrTag
  | ErrCommandRequired, ErrCommandRequired
  | ErrUnknownCommand, ErrUnknownCommand
  | ErrInvalidChoice, ErrInvalidChoice | ErrInvalidTag, ErrInvalidTag => true
  | _, _ => false
  end.

End flags.

(** A non-nil value of Go's [error] interface.  The program tells errors
    apart in two ways only: by the type assertion to a pointer to [flags.Error] and
    by [errors.Is(err, http.ErrServerClosed)], which follows the [Unwrap]
    chain.  A possibly-nil [error] is an [option error]. *)
Inductive error : Set :=
| ErrServerClosed                                    (* the sentinel http.ErrServerClosed *)
| FlagsError (ty : flags.ErrorType) (msg : string)   (* a *flags.Error *)
| PlainError (msg : string)                          (* errors.New / fmt.Errorf without %w *)
| WrapError (msg : string) (inner : error).          (* fmt.Errorf with one %w *)

Fixpoint error_eqb (a b : error) : bool :=
  match a, b with
  | ErrServerClosed, ErrServerClosed => true
  | FlagsError t1 m1, FlagsError t2 m2 => flags.ErrorType_eqb t1 t2 && (m1 =? m2)
  | PlainError m1, PlainError m2 => m1 =? m2
  | WrapError m1 i1, WrapError m2 i2 => (m1 =? m2) && error_eqb i1 i2
  | _, _ => false
  end.

(** [err.Error()], what [%v] and [Fprintln] print. *)
Definition error_Error (e : error) : string :=
  match e with
  | ErrServerClosed => "http: Server closed"
  | FlagsError _ msg => msg
  | PlainError msg => msg
  | WrapError msg _ => msg
  end.

(** The dynamic type, what [%T] prints. *)
Definition error_T (e : error) : string :=
  match e with
  | ErrServerClosed => "*errors.errorString"
  | FlagsError _ _ => "*flags.Error"
  | PlainError _ => "*errors.errorString"
  | WrapError _ _ => "*fmt.wrapError"
  end.

(** [errors.Is(err, target)] on a non-nil [err]: [err] or an error of its
    [Unwrap] chain is [target]. *)
Fixpoint errors_Is_chain (e target : error) : bool :=
  error_eqb e target ||
  match e with
  | WrapError _ inner => errors_Is_chain inner target
  | _ => false
  end.

(** [errors.Is(err, target)]; a nil [err] matches no non-nil target. *)
Definition errors_Is (err : option error) (target : error) : bool :=
  match err with
  | None => false
  | Some e => errors_Is_chain e target
  end.

(** [fmt.Errorf(msg)] for a format without verbs. *)
Definition fmt_Errorf (msg : string) : error := PlainError msg.

(** [os.Signal]: the two signals the program registers for. *)
Inductive Signal : Set :=
| Interrupt    (* os.Interrupt *)
| SIGTERM.     (* syscall.SIGTERM *)

(** [s.String()], what [%s] prints for a signal. *)
Definition Signal_String (s : Signal) : string :=
  match s with
  | Interrupt => "interrupt"
  | SIGTERM => "terminated"
  end.

(** Package [context].  [Background] is never cancelled and has no
    deadline; [WithDeadline] is the constructor that adds one. *)
Module context.

Inductive Context : Set :=
| Background
| WithDeadline (parent : Context) (d : Z).

(** [ctx.Deadline()]: [None] is Go's [ok == false]. *)
Fixpoint Deadline (ctx : Context) : option Z :=
  match ctx with
  | Background => None
  | WithDeadline parent d =>
      match Deadline parent with
      | Some p => Some (Z.min p d)
      | None => Some d
      end
  end.

End context.

(** ** Package [types]: the tenant tree *)
Module types.

Record Dataset : Set := mkDataset { Dataset_ID : string }.

Record Project : Set := mkProject { ID : string; Datasets : list Dataset }.

(** Modelled from the spec: [types.NewDataset], which is not among the
    sources.  A sub-collection is identified by its name and has no
    further structure for the coordinator. *)
Definition NewDataset (id : string) : Dataset := mkDataset id.

(** Modelled from the spec: [types.NewProject], which is not among the
    sources.  A tenant is identified by a string and owns an ordered
    collection of sub-collections, which only seeding extends; called
    with an identifier alone it owns none. *)
Definition NewProject (id : string) : Project := mkProject id [].

End types.

(** ** Package [server]: the engine facade *)
Module server.

(** [type Storage string]: the source converts a string to it. *)
Definition Storage : Set := string.

(** [server.LogLevel] and [server.LogFormat]: the flag defaults
    ([error], [console]) are strings. *)
Definition LogLevel : Set := string.
Definition LogFormat : Set := string.

(** Modelled from the spec: the seed sources [server.StructSource] and
    [server.YAMLSource], which are not among the sources: a tagged union
    of a structured seed (a tenant tree) and a file seed (a path). *)
Inductive Source : Set :=
| StructSource (p : types.Project)
| YAMLSource (path : string).

(** What the coordinator needs of the engine before it serves.  The
    engine is a mutable object behind a pointer: every call takes the
    state of the object and gives the new one.  [New] gives either the
    error or the fresh engine.  [TempStorage] is the package's constant
    for the ephemeral in-memory store. *)
Class Engine : Type := {
  Server : Type;
  TempStorage : Storage;
  New : Storage -> error + Server;
  SetProject : Server -> string -> Server * option error;
  Load : Server -> Source -> Server * option error;
  SetLogLevel : Server -> LogLevel -> Server * option error;
  SetLogFormat : Server -> LogFormat -> Server * option error
}.

End server.

(** ** Package [main] *)

(** [type option struct]. *)
Record option_ : Set := mkOption {
  Project : string;
  Dataset : string;
  Host : string;
  HTTPPort : N;                 (* uint16 *)
  GRPCPort : N;                 (* uint16 *)
  LogLevel : server.LogLevel;
  LogFormat : server.LogFormat;
  Database : string;
  DataFromYAML : string;
  Version : bool
}.

(** The zero value of [option], what [var opt option] declares. *)
Definition option_zero : option_ :=
  mkOption "" "" "" 0 0 "" "" "" "" false.

Definition exitCode : Set := Z.
Definition exitOK : exitCode := 0%Z.
Definition exitError : exitCode := 1%Z.

(** The package variables [version] and [revision] (set when the binary
    is linked) and the two parsers the program delegates to:
    [env.Parse(&opt)] and [flags.NewParser(opt, flags.Default).Parse()].
    Both parsers fill the option record they are given and may fail. *)
Class Platform : Type := {
  version : string;
  revision : string;
  env_Parse : option_ -> option_ * option error;
  flags_Parse : option_ -> option_ * list string * option error
}.

(** ** What the process does: the log *)

Inductive goroutine : Set :=
| SignalWatch     (* the goroutine of lines 128-136 *)
| ServeTask.      (* the goroutine of lines 139-145 *)

(** One entry per line written to a standard stream and per call made on
    a collaborator, oldest first. *)
Inductive event : Set :=
| Stdout (s : string)
| Stderr (s : string)
| CallNew (db : server.Storage)
| CallSetProject (id : string)
| CallLoad (src : server.Source)
| CallSetLogLevel (l : server.LogLevel)
| CallSetLogFormat (f : server.LogFormat)
| CallNotify (sigs : list Signal)
| Spawn (g : goroutine)
| CallServe (ctx : context.Context) (httpAddr grpcAddr : string)
| CallStop (ctx : context.Context).

(** ** Sequential code: a log and an early [return] *)

Inductive flow (A : Type) : Type :=
| Next (a : A)                 (* fall through to the next statement *)
| Return (r : option error).   (* [return r] *)

Arguments Next {A} a.
Arguments Return {A} r.

Definition Proc (A : Type) : Type := list event * flow A.

Definition pure {A : Type} (a : A) : Proc A := ([], Next a).

Definition bind {A B : Type} (m : Proc A) (k : A -> Proc B) : Proc B :=
  match m with
  | (t, Next a) => let (t', r) := k a in ((t ++ t')%list, r)
  | (t, Return r) => (t, Return r)
  end.

Declare Scope proc_scope.
Delimit Scope proc_scope with proc.
Notation "x <- m ;; k" := (bind m (fun x => k))
  (at level 61, m at next level, right associativity) : proc_scope.
Notation "m ;; k" := (bind m (fun _ => k))
  (at level 61, right associativity) : proc_scope.

Definition emit (e : event) : Proc unit := ([e], Next tt).

Definition return_ {A : Type} (r : option error) : Proc A := ([], Return r).

(** [if err != nil { return err }]. *)
Definition check (err : option error) : Proc unit :=
  match err with
  | Some e => return_ (Some e)
  | None => pure tt
  end.

(** ** The concurrent part of [runServer]: three tasks *)

(** The signal-watch goroutine: blocked in its [select], inside
    [bqServer.Stop], or finished. *)
Inductive watch_pc : Set :=
| WatchSelect
| WatchInStop
| WatchExit.

(** The serve goroutine: spawned, inside [bqServer.Serve], blocked on
    [done <- r] with the value [r] that [Serve] returned, or finished. *)
Inductive serve_pc : Set :=
| ServeSpawned
| ServeInServe
| ServeSend (r : option error)
| ServeExit.

(** [runServer] itself: blocked in the [select] of line 147, or returned. *)
Inductive main_pc : Set :=
| MainSelect
| MainReturn (r : option error).

Record tasks : Set := mkTasks {
  interrupt : option Signal;   (* [make(chan os.Signal, 1)]: at most one value *)
  watch : watch_pc;
  serve : serve_pc;
  main_ : main_pc;
  log : list event
}.

(** What can happen next: the three things the environment decides (a
    signal arrives, [Stop] returns, [Serve] returns) and the three steps
    of the program's own tasks. *)
Inductive action : Set :=
| Deliver (s : Signal)              (* the runtime gets a registered signal *)
| WatchReceive                      (* [case s := <-interrupt] *)
| StopReturns (r : option error)    (* [bqServer.Stop(ctx)] returns [r] *)
| ServeStart                        (* the serve goroutine runs up to [Serve] *)
| ServeReturns (r : option error)   (* [bqServer.Serve(...)] returns [r] *)
| DoneHandoff.                      (* [done <- r] meets [case err := <-done] *)

(** Lines 148-152: what [runServer] returns for the value received on
    [done]. *)
Definition onDone (err : option error) : option error :=
  if errors_Is err ErrServerClosed then None else err.

Section Coordinator.

Context {E : server.Engine} {P : Platform}.

Local Open Scope proc_scope.

(** [parseEnv]. *)
Definition parseEnv : option_ * option error :=
  env_Parse option_zero.

(** [parseOpt]: the parser fills [*opt]; the record it leaves is given
    back next to the two results. *)
Definition parseOpt (opt : option_) : option_ * list string * option error :=
  flags_Parse opt.

(** Lines 92-97 of [runServer]: the value of the variable [db]. *)
Definition runServer_db (opt : option_) : server.Storage :=
  if Database opt =? "" then server.TempStorage
  else "file:" ++ Database opt ++ "?cache=shared".

(** Lines 98-101 of [runServer]: the value of the variable [project]
    when it is given to [StructSource]. *)
Definition runServer_project (opt : option_) : types.Project :=
  let project := types.NewProject (Project opt) in
  if negb (Dataset opt =? "") then
    types.mkProject (types.ID project)
      (types.Datasets project ++ [types.NewDataset (Dataset opt)])
  else project.

(** A method call on [bqServer] followed by
    [if err != nil { return err }]. *)
Definition call (e : event) (res : server.Server * option error) : Proc server.Server :=
  emit e ;; check (snd res) ;; pure (fst res).

(** [server.New(db)] followed by [if err != nil { return err }]. *)
Definition call_New (db : server.Storage) : Proc server.Server :=
  emit (CallNew db) ;;
  match server.New db with
  | inl err => return_ (Some err)
  | inr s => pure s
  end.

(** Lines 85-122 of [runServer]: everything before the goroutines.  It
    either returns early or falls through with the engine. *)
Definition runServer_setup (opt : option_) : Proc server.Server :=
  if Version opt then
    emit (Stdout ("version: " ++ version ++ " (" ++ revision ++ ")" ++ nl)) ;;
    return_ None
  else if Project opt =? "" then
    return_ (Some (fmt_Errorf "the required flag --project was not specified"))
  else
    let db := runServer_db opt in
    let project := runServer_project opt in
    bqServer <- call_New db ;;
    bqServer <- call (CallSetProject (types.ID project))
                     (server.SetProject bqServer (types.ID project)) ;;
    bqServer <- call (CallLoad (server.StructSource project))
                     (server.Load bqServer (server.StructSource project)) ;;
    bqServer <- call (CallSetLogLevel (LogLevel opt))
                     (server.SetLogLevel bqServer (LogLevel opt)) ;;
    bqServer <- call (CallSetLogFormat (LogFormat opt))
                     (server.SetLogFormat bqServer (LogFormat opt)) ;;
    if negb (DataFromYAML opt =? "") then
      call (CallLoad (server.YAMLSource (DataFromYAML opt)))
           (server.Load bqServer (server.YAMLSource (DataFromYAML opt)))
    else pure bqServer.

(** The state in which [runServer] reaches its [select]: the channel
    [interrupt] is empty and registered, both goroutines are spawned. *)
Definition spawned (t : list event) : tasks :=
  mkTasks None WatchSelect ServeSpawned MainSelect
    (t ++ [CallNotify [Interrupt; SIGTERM]; Spawn SignalWatch; Spawn ServeTask])%list.

Definition say (st : tasks) (es : list event) : list event :=
  (log st ++ es)%list.

(** One step of the three tasks; [None] when the action cannot happen
    in [st].  Nothing happens once [runServer] has returned: [run]
    hands its result to [os.Exit]. *)
Definition step (opt : option_) (ctx : context.Context)
    (a : action) (st : tasks) : option tasks :=
  match main_ st with
  | MainReturn _ => None
  | MainSelect =>
      match a with
      | Deliver s =>
          (* [signal.Notify] never blocks: a signal that finds the
             channel full is dropped *)
          match interrupt st with
          | None => Some (mkTasks (Some s) (watch st) (serve st) MainSelect (log st))
          | Some _ => Some st
          end
      | WatchReceive =>
          match watch st, interrupt st with
          | WatchSelect, Some s =>
              Some (mkTasks None WatchInStop (serve st) MainSelect
                      (say st [Stdout ("[bigquery-emulator] receive " ++ Signal_String s
                                       ++ ". shutdown gracefully" ++ nl);
                               CallStop ctx]))
          | _, _ => None
          end
      | StopReturns r =>
          match watch st with
          | WatchInStop =>
              Some (mkTasks (interrupt st) WatchExit (serve st) MainSelect
                      (match r with
                       | Some err =>
                           say st [Stderr ("[bigquery-emulator] failed to stop: "
                                           ++ error_Error err ++ nl)]
                       | None => log st
                       end))
          | _ => None
          end
      | ServeStart =>
          match serve st with
          | ServeSpawned =>
              let httpAddr := Host opt ++ ":" ++ fmt_d (HTTPPort opt) in
              let grpcAddr := Host opt ++ ":" ++ fmt_d (GRPCPort opt) in
              Some (mkTasks (interrupt st) (watch st) ServeInServe MainSelect
                      (say st [Stdout ("[bigquery-emulator] REST server listening at "
                                       ++ httpAddr ++ nl);
                               Stdout ("[bigquery-emulator] gRPC server listening at "
                                       ++ grpcAddr ++ nl);
                               CallServe ctx httpAddr grpcAddr]))
          | _ => None
          end
      | ServeReturns r =>
          match serve st with
          | ServeInServe =>
              Some (mkTasks (interrupt st) (watch st) (ServeSend r) MainSelect (log st))
          | _ => None
          end
      | DoneHandoff =>
          match serve st with
          | ServeSend r =>
              Some (mkTasks (interrupt st) (watch st) ServeExit
                      (MainReturn (onDone r)) (log st))
          | _ => None
          end
      end
  end.

(** Runs a schedule; an action that cannot happen is skipped. *)
Fixpoint exec (opt : option_) (ctx : context.Context)
    (sched : list action) (st : tasks) : tasks :=
  match sched with
  | [] => st
  | a :: rest =>
      match step opt ctx a st with
      | Some st' => exec opt ctx rest st'
      | None => exec opt ctx rest st
      end
  end.

(** What a call has come to after a finite schedule. *)
Inductive result : Set :=
| Blocked                        (* still in the [select] of line 147 *)
| Returned (err : option error).

(** [runServer].  The context of line 124 is [context.Background()]. *)
Definition runServer (args : list string) (opt : option_)
    (sched : list action) : list event * result :=
  match runServer_setup opt with
  | (t, Return r) => (t, Returned r)
  | (t, Next bqServer) =>
      let ctx := context.Background in
      let st := exec opt ctx sched (spawned t) in
      (log st,
       match main_ st with
       | MainReturn r => Returned r
       | MainSelect => Blocked
       end)
  end.

(** [run]: the log and the exit code handed to [os.Exit]; no exit code
    while [runServer] is blocked. *)
Definition run (sched : list action) : list event * option exitCode :=
  let (opt, err) := parseEnv in
  match err with
  | Some e =>
      ([Stderr ("[bigquery-emulator] error parsing environment variables: "
                ++ error_Error e)],
       Some exitError)
  | None =>
      let '(opt, args, err) := parseOpt opt in
      match err with
      | Some (FlagsError ty _) =>
          if flags.ErrorType_eqb ty flags.ErrHelp then ([], Some exitOK)
          else ([], Some exitError)
      | Some e =>
          ([Stderr ("[bigquery-emulator] unknown parsed option error: "
                    ++ error_T e ++ " " ++ error_Error e ++ nl)],
           Some exitError)
      | None =>
          match runServer args opt sched with
          | (t, Returned (Some e)) =>
              ((t ++ [Stderr (error_Error e ++ nl)])%list, Some exitError)
          | (t, Returned None) => (t, Some exitOK)
          | (t, Blocked) => (t, None)
          end
      end
  end.

End Coordinator.

(** ** Reading a log *)

(** The seed sources applied, in the order of the calls to [Load]. *)
Fixpoint loads (t : list event) : list server.Source :=
  match t with
  | [] => []
  | CallLoad src :: rest => src :: loads rest
  | _ :: rest => loads rest
  end.

(** Events of the set-up phase: a call that builds, configures or seeds
    the engine. *)
Definition is_engine_setup (e : event) : bool :=
  match e with
  | CallNew _ | CallSetProject _ | CallLoad _
  | CallSetLogLevel _ | CallSetLogFormat _ => true
  | _ => false
  end.

(** Events that start serving: registering for signals, spawning either
    goroutine, calling [Serve] (which binds both listeners) or [Stop]. *)
Definition is_launch (e : event) : bool :=
  match e with
  | CallNotify _ | Spawn _ | CallServe _ _ _ | CallStop _ => true
  | _ => false
  end.

(** The exit code [run] derives from what [runServer] returned. *)
Definition exitCode_of (r : option error) : exitCode :=
  match r with
  | Some _ => exitError
  | None => exitOK
  end.

(** A schedule with the values returned by [Stop] forgotten. *)
Definition forget_stop (a : action) : action :=
  match a with
  | StopReturns _ => StopReturns None
  | _ => a
  end.

(** ** An engine and a platform to run the program on *)

(** An engine that remembers what was loaded.  It cannot open a database
    under [/nonexistent] and cannot read [missing.yaml]. *)
Definition testEngine : server.Engine := {|
  server.Server := list server.Source;
  server.TempStorage := "file::memory:?cache=shared";
  server.New := fun db =>
    if db =? "file:/nonexistent/bq.db?cache=shared"
    then inl (PlainError "unable to open database file")
    else inr [];
  server.SetProject := fun s _ => (s, None);
  server.Load := fun s src =>
    match src with
    | server.YAMLSource "missing.yaml" =>
        (s, Some (WrapError "open missing.yaml: no such file or directory"
                    (PlainError "no such file or directory")))
    | _ => ((s ++ [src])%list, None)
    end;
  server.SetLogLevel := fun s _ => (s, None);
  server.SetLogFormat := fun s _ => (s, None)
|}.

(** A platform whose environment is empty and whose command line parses
    to [cfg] with the error [perr]. *)
Definition testPlatform (cfg : option_) (perr : option error) : Platform := {|
  version := "0.6.6";
  revision := "f5a7c1d";
  env_Parse := fun opt => (opt, None);
  flags_Parse := fun _ => (cfg, [], perr)
|}.

(** [--project proj1 --dataset ds1] with the defaults of the flags. *)
Definition cfg_proj1 : option_ :=
  mkOption "proj1" "ds1" "0.0.0.0" 9050 9060 "error" "console" "" "" false.

(** The same with [--data-from-yaml missing.yaml]. *)
Definition cfg_bad_seed : option_ :=
  mkOption "proj1" "ds1" "0.0.0.0" 9050 9060 "error" "console" "" "missing.yaml" false.

(** No [--project]. *)
Definition cfg_no_project : option_ :=
  mkOption "" "ds1" "0.0.0.0" 9050 9060 "error" "console" "" "" false.

(** [--version] alone. *)
Definition cfg_version : option_ :=
  mkOption "" "" "0.0.0.0" 9050 9060 "error" "console" "" "" true.

(** [--project proj1 --data-from-yaml seed.yaml --database /var/lib/bq.db]. *)
Definition cfg_seed_file : option_ :=
  mkOption "proj1" "" "0.0.0.0" 9050 9060 "error" "console"
    "/var/lib/bq.db" "seed.yaml" false.

(** A termination signal that is handled before the serve goroutine has
    run, with a clean stop. *)
Definition sched_early_signal : list action :=
  [Deliver SIGTERM; WatchReceive; StopReturns None].

(** [Serve] is running and [Stop] has been called. *)
Definition sched_stopping : list action :=
  [ServeStart; Deliver Interrupt; WatchReceive].

(** A termination signal, a clean stop, and [Serve] returning the
    sentinel. *)
Definition sched_graceful : list action :=
  [ServeStart; Deliver SIGTERM; WatchReceive; StopReturns None;
   ServeReturns (Some ErrServerClosed); DoneHandoff].

(** The same shutdown with a [Stop] that fails. *)
Definition sched_stop_fails : list action :=
  [ServeStart; Deliver SIGTERM; WatchReceive;
   StopReturns (Some (PlainError "context deadline exceeded"));
   ServeReturns (Some ErrServerClosed); DoneHandoff].

(** A listener that cannot bind. *)
Definition sched_bind_fails : list action :=
  [ServeStart;
   ServeReturns (Some (PlainError "listen tcp 0.0.0.0:9050: bind: address already in use"));
   DoneHandoff].

(** Events of the serving phase under the context [ctx]: a line printed by
    a goroutine, or a call to [Serve] or [Stop] with [ctx]. *)
Definition runtime_event (ctx : context.Context) (e : event) : Prop :=
  match e with
  | Stdout _ | Stderr _ => True
  | CallServe c _ _ | CallStop c => c = ctx
  | _ => False
  end.

(** The command line and the environment parse, without error, to the
    configuration [opt] and the remaining arguments [args]. *)
Definition parses_to {P : Platform} (opt : option_) (args : list string) : Prop :=
  exists opt0, parseEnv = (opt0, None) /\ parseOpt opt0 = (opt, args, None).

(** Two states of the tasks that differ in their logs at most. *)
Definition same_pcs (st st' : tasks) : Prop :=
  interrupt st = interrupt st' /\ watch st = watch st' /\
  serve st = serve st' /\ main_ st = main_ st'.

(** What [runServer] does between the set-up and its [select]. *)
Definition launch_events : list event :=
  [CallNotify [Interrupt; SIGTERM]; Spawn SignalWatch; Spawn ServeTask].

(** The state of the three tasks after [sched], when the set-up went
    through; [None] when [runServer] returned during the set-up. *)
Definition tasks_after {E : server.Engine} {P : Platform}
    (opt : option_) (sched : list action) : option tasks :=
  match runServer_setup opt with
  | (t, Next _) => Some (exec opt context.Background sched (spawned t))
  | (_, Return _) => None
  end.

(** ** How far the set-up of [runServer] gets *)

Section Stages.

Context {E : server.Engine} {P : Platform}.
Variable opt : option_.

Let db := runServer_db opt.
Let project := runServer_project opt.

(** The engine was constructed, leaving it in state [s]. *)
Definition constructed (s : server.Server) : Prop :=
  Version opt = false /\ Project opt <> "" /\ server.New db = inr s.

(** ... and the active tenant was set. *)
Definition tenant_set (s : server.Server) : Prop :=
  exists s0, constructed s0 /\ server.SetProject s0 (types.ID project) = (s, None).

(** ... and the structured seed was applied. *)
Definition struct_seeded (s : server.Server) : Prop :=
  exists s1, tenant_set s1 /\ server.Load s1 (server.StructSource project) = (s, None).

(** ... and the log level was set. *)
Definition level_set (s : server.Server) : Prop :=
  exists s2, struct_seeded s2 /\ server.SetLogLevel s2 (LogLevel opt) = (s, None).

(** ... and the log format was set. *)
Definition format_set (s : server.Server) : Prop :=
  exists s3, level_set s3 /\ server.SetLogFormat s3 (LogFormat opt) = (s, None).

(** Every step of the set-up succeeded, the file seed included when one
    is configured. *)
Definition setup_succeeded (s : server.Server) : Prop :=
  (DataFromYAML opt = "" /\ format_set s) \/
  (DataFromYAML opt <> "" /\
   exists s4, format_set s4 /\
              server.Load s4 (server.YAMLSource (DataFromYAML opt)) = (s, None)).

(** Applying a seed source gave the error [e]: the structured seed, or
    the file seed of a configured path. *)
Definition seed_failed (e : error) : Prop :=
  (exists s1 s, tenant_set s1 /\
                server.Load s1 (server.StructSource project) = (s, Some e)) \/
  (exists s4 s, format_set s4 /\ DataFromYAML opt <> "" /\
                server.Load s4 (server.YAMLSource (DataFromYAML opt)) = (s, Some e)).

(** The calls of a set-up that goes through, in program order. *)
Definition calls_before_file_seed : list event :=
  [CallNew db; CallSetProject (types.ID project);
   CallLoad (server.StructSource project);
   CallSetLogLevel (LogLevel opt); CallSetLogFormat (LogFormat opt)].

Definition call_file_seed : event :=
  CallLoad (server.YAMLSource (DataFromYAML opt)).

(** The ways [runServer_setup] can end. *)
Inductive setup_outcome : Proc server.Server -> Prop :=
| VersionPrinted :
    Version opt = true ->
    setup_outcome
      ([Stdout ("version: " ++ version ++ " (" ++ revision ++ ")" ++ nl)], Return None)
| ProjectMissing :
    Version opt = false -> Project opt = "" ->
    setup_outcome
      ([], Return (Some (fmt_Errorf "the required flag --project was not specified")))
| NewFailed e :
    Version opt = false -> Project opt <> "" -> server.New db = inl e ->
    setup_outcome (firstn 1 calls_before_file_seed, Return (Some e))
| SetProjectFailed s0 s e :
    constructed s0 -> server.SetProject s0 (types.ID project) = (s, Some e) ->
    setup_outcome (firstn 2 calls_before_file_seed, Return (Some e))
| StructSeedFailed s1 s e :
    tenant_set s1 -> server.Load s1 (server.StructSource project) = (s, Some e) ->
    setup_outcome (firstn 3 calls_before_file_seed, Return (Some e))
| LogLevelFailed s2 s e :
    struct_seeded s2 -> server.SetLogLevel s2 (LogLevel opt) = (s, Some e) ->
    setup_outcome (firstn 4 calls_before_file_seed, Return (Some e))
| LogFormatFailed s3 s e :
    level_set s3 -> server.SetLogFormat s3 (LogFormat opt) = (s, Some e) ->
    setup_outcome (calls_before_file_seed, Return (Some e))
| FileSeedFailed s4 s e :
    format_set s4 -> DataFromYAML opt <> "" ->
    server.Load s4 (server.YAMLSource (DataFromYAML opt)) = (s, Some e) ->
    setup_outcome ((calls_before_file_seed ++ [call_file_seed])%list, Return (Some e))
| ReadyWithoutFile s4 :
    format_set s4 -> DataFromYAML opt = "" ->
    setup_outcome (calls_before_file_seed, Next s4)
| ReadyWithFile s4 s :
    format_set s4 -> DataFromYAML opt <> "" ->
    server.Load s4 (server.YAMLSource (DataFromYAML opt)) = (s, None) ->
    setup_outcome ((calls_before_file_seed ++ [call_file_seed])%list, Next s).

End Stages.

(** ** More ways to read a schedule and a log *)

(** The first signal a schedule delivers. *)
Fixpoint first_signal (sched : list action) : option Signal :=
  match sched with
  | [] => None
  | Deliver s :: _ => Some s
  | _ :: rest => first_signal rest
  end.

(** The actions of the serve goroutine and the hand-off on [done]; the
    others belong to the signal-watch goroutine and to the runtime. *)
Definition is_serve_action (a : action) : bool :=
  match a with
  | ServeStart | ServeReturns _ | DoneHandoff => true
  | _ => false
  end.

Definition is_stop_call (e : event) : bool :=
  match e with
  | CallStop _ => true
  | _ => false
  end.

Definition is_serve_call (e : event) : bool :=
  match e with
  | CallServe _ _ _ => true
  | _ => false
  end.

(** The line the signal-watch goroutine prints for the error [e] of
    [Stop]. *)
Definition stop_failure_line (e : error) : event :=
  Stderr ("[bigquery-emulator] failed to stop: " ++ error_Error e ++ nl).

(** The line the signal-watch goroutine prints for the signal [s]. *)
Definition receive_line (s : Signal) : event :=
  Stdout ("[bigquery-emulator] receive " ++ Signal_String s
          ++ ". shutdown gracefully" ++ nl).

(** [fmt.Sprintf("%s:%d", opt.Host, port)]. *)
Definition listen_addr (opt : option_) (port : N) : string :=
  Host opt ++ ":" ++ fmt_d port.

(** What the serve goroutine writes and calls, in order. *)
Definition serve_start_events (opt : option_) (ctx : context.Context) : list event :=
  [Stdout ("[bigquery-emulator] REST server listening at "
           ++ listen_addr opt (HTTPPort opt) ++ nl);
   Stdout ("[bigquery-emulator] gRPC server listening at "
           ++ listen_addr opt (GRPCPort opt) ++ nl);
   CallServe ctx (listen_addr opt (HTTPPort opt)) (listen_addr opt (GRPCPort opt))].

(** Events of the serving phase of the configuration [opt]: as
    [runtime_event], with the addresses of [Serve]. *)
Definition serving_event (opt : option_) (ctx : context.Context) (e : event) : Prop :=
  match e with
  | Stdout _ | Stderr _ => True
  | CallServe c h g =>
      c = ctx /\ h = listen_addr opt (HTTPPort opt) /\ g = listen_addr opt (GRPCPort opt)
  | CallStop c => c = ctx
  | _ => False
  end.

(** The sentinel or any error wrapped [msgs]-deep with [%w]. *)
Definition wrap_all (msgs : list string) (e : error) : error :=
  fold_right WrapError e msgs.

(** The calls of a whole set-up, the file seed included when a path is
    configured. *)
Definition setup_calls {E : server.Engine} (opt : option_) : list event :=
  (calls_before_file_seed opt
   ++ (if negb (DataFromYAML opt =? "") then [call_file_seed opt] else []))%list.

(** One of the set-up calls that are not seeds gave the error [e]:
    [server.New], [SetProject], [SetLogLevel] or [SetLogFormat]. *)
Definition setup_call_failed {E : server.Engine} (opt : option_) (e : error) : Prop :=
  (Version opt = false /\ Project opt <> ""
   /\ server.New (runServer_db opt) = inl e)
  \/ (exists s0 s, constructed opt s0 /\
        server.SetProject s0 (types.ID (runServer_project opt)) = (s, Some e))
  \/ (exists s2 s, struct_seeded opt s2 /\
        server.SetLogLevel s2 (LogLevel opt) = (s, Some e))
  \/ (exists s3 s, level_set opt s3 /\
        server.SetLogFormat s3 (LogFormat opt) = (s, Some e)).

(** The call number [i] of [setup_calls] (from 0) is reached, every call
    before it having succeeded, and gives the error [e]. *)
Definition call_fails {E : server.Engine} (opt : option_) (i : nat) (e : error) : Prop :=
  match i with
  | 0 => Version opt = false /\ Project opt <> ""
         /\ server.New (runServer_db opt) = inl e
  | 1 => exists s0 s, constructed opt s0 /\
           server.SetProject s0 (types.ID (runServer_project opt)) = (s, Some e)
  | 2 => exists s1 s, tenant_set opt s1 /\
           server.Load s1 (server.StructSource (runServer_project opt)) = (s, Some e)
  | 3 => exists s2 s, struct_seeded opt s2 /\
           server.SetLogLevel s2 (LogLevel opt) = (s, Some e)
  | 4 => exists s3 s, level_set opt s3 /\
           server.SetLogFormat s3 (LogFormat opt) = (s, Some e)
  | 5 => exists s4 s, format_set opt s4 /\ DataFromYAML opt <> "" /\
           server.Load s4 (server.YAMLSource (DataFromYAML opt)) = (s, Some e)
  | _ => False
  end.

(** The calls to [Stop] and to [Serve] that a state of the tasks
    accounts for: none before the goroutine has got there, one after. *)
Definition calls_accounted (st : tasks) : Prop :=
  length (filter is_stop_call (log st))
  = match watch st with WatchSelect => 0 | _ => 1 end
  /\ length (filter is_serve_call (log st))
     = match serve st with ServeSpawned => 0 | _ => 1 end.

(** Two states of the tasks whose serve goroutine and [select] are at
    the same point. *)
Definition same_serve (st st' : tasks) : Prop :=
  serve st = serve st' /\ main_ st = main_ st'.

(** An engine like [testEngine] that checks the log level. *)
Definition pickyEngine : server.Engine := {|
  server.Server := list server.Source;
  server.TempStorage := "file::memory:?cache=shared";
  server.New := fun _ => inr [];
  server.SetProject := fun s _ => (s, None);
  server.Load := fun s src => ((s ++ [src])%list, None);
  server.SetLogLevel := fun s l =>
    if (l =? "debug") || (l =? "info") || (l =? "warn") || (l =? "error")
    then (s, None)
    else (s, Some (PlainError ("unexpected log level " ++ l)));
  server.SetLogFormat := fun s _ => (s, None)
|}.

(** [--project proj1 --log-level verbose --data-from-yaml seed.yaml]. *)
Definition cfg_bad_level : option_ :=
  mkOption "proj1" "" "0.0.0.0" 9050 9060 "verbose" "console" "" "seed.yaml" false.

(** Two signals before the signal-watch goroutine runs. *)
Definition sched_two_signals : list action :=
  [ServeStart; Deliver Interrupt; Deliver SIGTERM; WatchReceive;
   StopReturns None; ServeReturns (Some ErrServerClosed); DoneHandoff].

(** * Properties *)

(** ** Strings and errors *)

Lemma eqb_empty_false (s : string) : s <> "" -> (s =? "") = false.
Proof. intro H. now apply String.eqb_neq. Qed.

Lemma onDone_closed (v : option error) :
  errors_Is v ErrServerClosed = true -> onDone v = None.
Proof. unfold onDone. now intros ->. Qed.

Lemma onDone_other (v : option error) :
  errors_Is v ErrServerClosed = false -> onDone v = v.
Proof. unfold onDone. now intros ->. Qed.

Lemma loads_app (t u : list event) : loads (t ++ u) = (loads t ++ loads u)%list.
Proof.
  induction t as [|e t IH]; [reflexivity|].
  destruct e; simpl; now rewrite IH.
Qed.

Lemma runtime_loads ctx (es : list event) :
  Forall (runtime_event ctx) es -> loads es = [].
Proof.
  induction 1 as [|e es He _ IH]; [reflexivity|].
  destruct e; simpl in *; try contradiction; exact IH.
Qed.

Lemma runtime_not_setup ctx (es : list event) :
  Forall (runtime_event ctx) es ->
  forall e, In e es -> is_engine_setup e = false /\ (forall g, e <> Spawn g).
Proof.
  intros H e He. rewrite Forall_forall in H. specialize (H e He).
  destruct e; simpl in *; try contradiction; split; try reflexivity; discriminate.
Qed.

(** ** The three tasks *)

Section Tasks.

Context {E : server.Engine} {P : Platform}.
Variables (opt : option_) (ctx : context.Context).

Lemma step_returned a st r : main_ st = MainReturn r -> step opt ctx a st = None.
Proof. unfold step. now intros ->. Qed.

Lemma exec_returned sched st r :
  main_ st = MainReturn r -> exec opt ctx sched st = st.
Proof.
  intro H. induction sched as [|a sched IH]; [reflexivity|].
  simpl. now rewrite (step_returned a st r H).
Qed.

Lemma exec_app s1 s2 st :
  exec opt ctx (s1 ++ s2) st = exec opt ctx s2 (exec opt ctx s1 st).
Proof.
  revert st. induction s1 as [|a s1 IH]; intro st; [reflexivity|].
  simpl. destruct (step opt ctx a st); apply IH.
Qed.

(** A step only appends to the log, and only events of the serving
    phase. *)
Lemma step_log a st st' :
  step opt ctx a st = Some st' ->
  exists es, log st' = (log st ++ es)%list /\ Forall (runtime_event ctx) es.
Proof.
  unfold step, say.
  destruct (main_ st); [|discriminate].
  destruct a as [s| |r| |r| ].
  - destruct (interrupt st); intros [= <-]; exists []; simpl;
      rewrite ?app_nil_r; auto.
  - destruct (watch st); try discriminate.
    destruct (interrupt st); [|discriminate].
    intros [= <-]. eexists; split; [reflexivity|].
    repeat constructor.
  - destruct (watch st); try discriminate.
    intros [= <-]. destruct r; simpl.
    + eexists; split; [reflexivity|]. repeat constructor.
    + exists []. rewrite app_nil_r. auto.
  - destruct (serve st); try discriminate.
    intros [= <-]. eexists; split; [reflexivity|]. repeat constructor.
  - destruct (serve st); try discriminate.
    intros [= <-]. exists []. simpl. rewrite app_nil_r. auto.
  - destruct (serve st); try discriminate.
    intros [= <-]. exists []. simpl. rewrite app_nil_r. auto.
Qed.

Lemma exec_log sched st :
  exists es, log (exec opt ctx sched st) = (log st ++ es)%list
             /\ Forall (runtime_event ctx) es.
Proof.
  revert st. induction sched as [|a sched IH]; intro st; simpl.
  - exists []. rewrite app_nil_r. auto.
  - destruct (step opt ctx a st) as [st'|] eqn:Hs; [|apply IH].
    destruct (step_log a st st' Hs) as (es1 & Hl1 & H1).
    destruct (IH st') as (es2 & Hl2 & H2).
    exists (es1 ++ es2)%list. rewrite Hl2, Hl1, app_assoc. split; [reflexivity|].
    now apply Forall_app.
Qed.

(** The value [runServer] returns is [onDone] of a value that [Serve]
    returned. *)
Lemma exec_return sched st r :
  main_ st = MainSelect ->
  main_ (exec opt ctx sched st) = MainReturn r ->
  exists v, r = onDone v /\ (serve st = ServeSend v \/ In (ServeReturns v) sched).
Proof.
  revert st. induction sched as [|a sched IH]; intros st Hm; simpl.
  - rewrite Hm. discriminate.
  - destruct (step opt ctx a st) as [st'|] eqn:Hs; intro Hr.
    + unfold step in Hs. rewrite Hm in Hs.
      destruct a as [s| |v| |v| ].
      * destruct (interrupt st); injection Hs as <-;
          (apply IH in Hr; [|solve [reflexivity | exact Hm]]);
          destruct Hr as (w & Hw & [Hsend|Hin]); exists w; simpl in *; auto.
      * destruct (watch st); try discriminate.
        destruct (interrupt st); [|discriminate].
        injection Hs as <-. apply IH in Hr; [|reflexivity].
        destruct Hr as (w & Hw & [Hsend|Hin]); exists w; simpl in *; auto.
      * destruct (watch st); try discriminate. injection Hs as <-.
        apply IH in Hr; [|reflexivity].
        destruct Hr as (w & Hw & [Hsend|Hin]); exists w; simpl in *; auto.
      * destruct (serve st); try discriminate. injection Hs as <-.
        apply IH in Hr; [|reflexivity].
        destruct Hr as (w & Hw & [Hsend|Hin]); exists w; simpl in *; auto.
        discriminate.
      * destruct (serve st); try discriminate. injection Hs as <-.
        apply IH in Hr; [|reflexivity].
        destruct Hr as (w & Hw & [Hsend|Hin]); exists w; simpl in *; auto.
        injection Hsend as <-. auto.
      * destruct (serve st) as [| |v|] eqn:Hsv; try discriminate.
        injection Hs as <-.
        rewrite exec_returned with (r := onDone v) in Hr by reflexivity.
        simpl in Hr. injection Hr as <-. exists v. auto.
    + apply IH in Hr; [|exact Hm].
      destruct Hr as (w & Hw & [Hsend|Hin]); exists w; simpl; auto.
Qed.

End Tasks.

(** ** The set-up phase *)

Ltac open_stages :=
  unfold setup_succeeded, seed_failed, format_set, level_set, struct_seeded,
    tenant_set, constructed in *;
  repeat match goal with
    | H : exists _, _ |- _ => destruct H
    | H : _ /\ _ |- _ => destruct H
    end.

Section Setup.

Context {E : server.Engine} {P : Platform}.

(** [runServer_setup] ends in one of the ten ways of [setup_outcome]. *)
Lemma setup_outcomes opt : setup_outcome opt (runServer_setup opt).
Proof.
  unfold runServer_setup.
  destruct (Version opt) eqn:Hv; [apply VersionPrinted; exact Hv|].
  destruct (Project opt =? "") eqn:Hp.
  { apply ProjectMissing; [exact Hv | now apply String.eqb_eq]. }
  apply String.eqb_neq in Hp.
  unfold call_New, call, bind, emit, check, return_, pure.
  destruct (server.New (runServer_db opt)) as [e|s0] eqn:H0.
  { now apply NewFailed. }
  assert (C0 : constructed opt s0) by (repeat split; assumption).
  destruct (server.SetProject s0 _) as [s1 [e|]] eqn:H1; cbn [fst snd].
  { now apply SetProjectFailed with s0 s1. }
  assert (C1 : tenant_set opt s1) by (exists s0; split; assumption).
  destruct (server.Load s1 _) as [s2 [e|]] eqn:H2; cbn [fst snd].
  { now apply StructSeedFailed with s1 s2. }
  assert (C2 : struct_seeded opt s2) by (exists s1; split; assumption).
  destruct (server.SetLogLevel s2 _) as [s3 [e|]] eqn:H3; cbn [fst snd].
  { now apply LogLevelFailed with s2 s3. }
  assert (C3 : level_set opt s3) by (exists s2; split; assumption).
  destruct (server.SetLogFormat s3 _) as [s4 [e|]] eqn:H4; cbn [fst snd].
  { now apply LogFormatFailed with s3 s4. }
  assert (C4 : format_set opt s4) by (exists s3; split; assumption).
  destruct (DataFromYAML opt =? "") eqn:Hy; cbn [negb].
  { apply String.eqb_eq in Hy. now apply ReadyWithoutFile. }
  apply String.eqb_neq in Hy.
  destruct (server.Load s4 _) as [s5 [e|]] eqn:H5; cbn [fst snd].
  { now apply FileSeedFailed with s4 s5. }
  now apply ReadyWithFile with s4.
Qed.

(** A set-up that goes through ends with the engine and has made every
    call. *)
Lemma setup_succeeded_run opt s :
  setup_succeeded opt s ->
  exists t, runServer_setup opt = (t, Next s) /\
            (forall e, In e t -> is_engine_setup e = true).
Proof.
  intro H. pose proof (setup_outcomes opt) as O.
  inversion O; destruct H as [H|H]; open_stages; try congruence.
  - eexists; split; [f_equal; f_equal; congruence|].
    simpl. intuition (subst; reflexivity).
  - eexists; split; [f_equal; f_equal; congruence|].
    simpl. intuition (subst; reflexivity).
Qed.

(** The set-up phase itself starts nothing. *)
Lemma setup_log_quiet opt e :
  In e (fst (runServer_setup opt)) -> is_launch e = false.
Proof.
  pose proof (setup_outcomes opt) as O.
  inversion O; cbn [fst]; simpl; intuition (subst; reflexivity).
Qed.

Lemma runServer_early args opt sched t r :
  runServer_setup opt = (t, Return r) -> runServer args opt sched = (t, Returned r).
Proof. unfold runServer. now intros ->. Qed.

Lemma runServer_launched args opt sched t s :
  runServer_setup opt = (t, Next s) ->
  runServer args opt sched =
    (log (exec opt context.Background sched (spawned t)),
     match main_ (exec opt context.Background sched (spawned t)) with
     | MainReturn r => Returned r
     | MainSelect => Blocked
     end).
Proof. unfold runServer. now intros ->. Qed.

(** The log of [runServer]: the log of the set-up and, when the set-up
    went through, the launch followed by events of the serving phase. *)
Lemma runServer_log args opt sched :
  exists es, fst (runServer args opt sched) = (fst (runServer_setup opt) ++ es)%list /\
    match snd (runServer_setup opt) with
    | Return _ => es = []
    | Next _ => exists rt, es = (launch_events ++ rt)%list
                           /\ Forall (runtime_event context.Background) rt
    end.
Proof.
  destruct (runServer_setup opt) as [t [s|r]] eqn:Hs.
  - rewrite (runServer_launched args opt sched t s Hs). cbn [fst snd].
    destruct (exec_log opt context.Background sched (spawned t)) as (rt & Hl & Hrt).
    exists (launch_events ++ rt)%list. split; [|eauto].
    rewrite Hl. unfold spawned, launch_events. cbn [log].
    now rewrite <- app_assoc.
  - rewrite (runServer_early args opt sched t r Hs). exists []. cbn [fst snd].
    now rewrite app_nil_r.
Qed.

(** [run] on a command line that parses. *)
Lemma run_parsed opt args sched :
  parses_to opt args ->
  run sched =
    match runServer args opt sched with
    | (t, Returned (Some e)) => ((t ++ [Stderr (error_Error e ++ nl)])%list, Some exitError)
    | (t, Returned None) => (t, Some exitOK)
    | (t, Blocked) => (t, None)
    end.
Proof. intros (opt0 & He & Ho). unfold run. now rewrite He, Ho. Qed.

Lemma run_exit opt args sched :
  parses_to opt args ->
  snd (run sched) =
    match snd (runServer args opt sched) with
    | Returned r => Some (exitCode_of r)
    | Blocked => None
    end.
Proof.
  intro H. rewrite (run_parsed opt args sched H).
  destruct (runServer args opt sched) as [t [|[e|]]]; reflexivity.
Qed.

End Setup.

(** ** Requests that end before the engine exists *)

Section Requests.

Context {E : server.Engine} {P : Platform}.

(** C10.  When the version flag is set, [runServer] prints the version
    line and returns nil whatever the rest of the configuration is (an
    empty project included) and whatever the schedule: the log holds
    that one line, so the required-project check, storage selection,
    engine construction, seeding and listener start are all skipped,
    and the process exits 0. *)
Theorem version_request_skips_everything (opt : option_) (args : list string)
    (sched : list action) :
  Version opt = true ->
  runServer args opt sched
    = ([Stdout ("version: " ++ version ++ " (" ++ revision ++ ")" ++ nl)],
       Returned None)
  /\ (parses_to opt args ->
      run sched
        = ([Stdout ("version: " ++ version ++ " (" ++ revision ++ ")" ++ nl)],
           Some exitOK)).
Proof.
  intro Hv.
  assert (R : runServer args opt sched
              = ([Stdout ("version: " ++ version ++ " (" ++ revision ++ ")" ++ nl)],
                 Returned None)).
  { apply runServer_early. unfold runServer_setup. now rewrite Hv. }
  split; [exact R|].
  intro Hp. now rewrite (run_parsed opt args sched Hp), R.
Qed.

(** C2.  When the project is empty and the version flag is not set,
    [runServer] returns the configuration error at once with an empty
    log, for every schedule; the process reports it and exits 1, and no
    event of its log builds or seeds the engine or starts anything. *)
Theorem missing_project_is_fatal (opt : option_) (args : list string)
    (sched : list action) :
  Version opt = false -> Project opt = "" ->
  runServer args opt sched
    = ([], Returned (Some (fmt_Errorf "the required flag --project was not specified")))
  /\ (parses_to opt args ->
      run sched
        = ([Stderr ("the required flag --project was not specified" ++ nl)],
           Some exitError)
      /\ forall e, In e (fst (run sched)) ->
                   is_engine_setup e = false /\ is_launch e = false).
Proof.
  intros Hv Hp.
  assert (R : runServer args opt sched
              = ([], Returned (Some (fmt_Errorf
                   "the required flag --project was not specified")))).
  { apply runServer_early. unfold runServer_setup. now rewrite Hv, Hp. }
  split; [exact R|].
  intro Hparse. rewrite (run_parsed opt args sched Hparse), R.
  split; [reflexivity|].
  intros e [<-|[]]. split; reflexivity.
Qed.

(** C8.  [run] gives [exitOK] (0) for a help-type flags error and for a
    version request, and [exitError] (1) for an environment error, for
    any other parse error and for every non-nil error of [runServer];
    a set-up step that fails makes [runServer] return a non-nil error. *)
Theorem exit_codes (sched : list action) :
  exitOK = 0%Z /\ exitError = 1%Z
  /\ (forall opt0 opt args msg,
        parseEnv = (opt0, None) ->
        parseOpt opt0 = (opt, args, Some (FlagsError flags.ErrHelp msg)) ->
        snd (run sched) = Some exitOK)
  /\ (forall opt args,
        parses_to opt args -> Version opt = true ->
        snd (runServer args opt sched) = Returned None
        /\ snd (run sched) = Some exitOK)
  /\ (forall opt args e,
        parses_to opt args ->
        snd (runServer args opt sched) = Returned (Some e) ->
        snd (run sched) = Some exitError)
  /\ (forall opt0 e, parseEnv = (opt0, Some e) -> snd (run sched) = Some exitError)
  /\ (forall opt0 opt args e,
        parseEnv = (opt0, None) -> parseOpt opt0 = (opt, args, Some e) ->
        (forall msg, e <> FlagsError flags.ErrHelp msg) ->
        snd (run sched) = Some exitError)
  /\ (forall opt args t e,
        runServer_setup opt = (t, Return (Some e)) ->
        snd (runServer args opt sched) = Returned (Some e)).
Proof.
  split; [reflexivity|]. split; [reflexivity|].
  split; [|split; [|split; [|split; [|split]]]].
  - intros opt0 opt args msg He Ho. unfold run. now rewrite He, Ho.
  - intros opt args Hp Hv.
    assert (R : snd (runServer args opt sched) = Returned None).
    { rewrite (runServer_early args opt sched
                 [Stdout ("version: " ++ version ++ " (" ++ revision ++ ")" ++ nl)] None);
        [reflexivity|].
      unfold runServer_setup. now rewrite Hv. }
    split; [exact R|]. now rewrite (run_exit opt args sched Hp), R.
  - intros opt args e Hp R. now rewrite (run_exit opt args sched Hp), R.
  - intros opt0 e He. unfold run. now rewrite He.
  - intros opt0 opt args e He Ho Hne. unfold run. rewrite He, Ho.
    destruct e as [|ty msg|msg|msg inner]; try reflexivity.
    destruct ty; try reflexivity. now elim (Hne msg).
  - intros opt args t e Hs. now rewrite (runServer_early args opt sched t (Some e) Hs).
Qed.

End Requests.

(** ** Storage selection and the initial tenant *)

Section Selection.

Context {E : server.Engine} {P : Platform}.

(** The first call of a set-up that gets past the two early returns
    constructs the engine on the selected storage. *)
Lemma setup_constructs_on_db opt :
  Version opt = false -> Project opt <> "" ->
  exists rest, fst (runServer_setup opt) = CallNew (runServer_db opt) :: rest.
Proof.
  intros Hv Hp. pose proof (setup_outcomes opt) as O.
  inversion O; open_stages; try congruence; cbn [fst]; eexists; reflexivity.
Qed.

(** The structured seed of a set-up that reaches seeding is the tenant
    assembled from the configuration. *)
Lemma setup_seeds_project opt s1 :
  tenant_set opt s1 ->
  exists rest,
    loads (fst (runServer_setup opt))
    = server.StructSource (runServer_project opt) :: rest.
Proof.
  intro H. pose proof (setup_outcomes opt) as O.
  inversion O; open_stages; try congruence; cbn [fst]; eexists; reflexivity.
Qed.

(** C5.  Storage selection is a function of the database path alone,
    with a storage handle for every configuration: the in-memory
    handle [TempStorage] for the empty path, and the string
    [file:<path>?cache=shared] for any other.  The engine is
    constructed on that handle. *)
Theorem storage_selection (opt : option_) :
  (Database opt = "" -> runServer_db opt = server.TempStorage)
  /\ (Database opt <> "" ->
      runServer_db opt = "file:" ++ Database opt ++ "?cache=shared")
  /\ (forall opt', Database opt' = Database opt -> runServer_db opt' = runServer_db opt)
  /\ (forall args sched,
        Version opt = false -> Project opt <> "" ->
        exists rest, fst (runServer args opt sched) = CallNew (runServer_db opt) :: rest).
Proof.
  unfold runServer_db. repeat split.
  - intro H. now rewrite H.
  - intro H. now rewrite (eqb_empty_false _ H).
  - intros opt' H. now rewrite H.
  - intros args sched Hv Hp.
    destruct (runServer_log args opt sched) as (es & Hl & _).
    destruct (setup_constructs_on_db opt Hv Hp) as (rest & Hr).
    rewrite Hl. unfold runServer_db in Hr. rewrite Hr.
    eexists. reflexivity.
Qed.

(** C9.  The initial tenant is a function of the project and dataset
    options alone, so two constructions from the same configuration
    give equal trees: the identifier is the configured project, and
    the datasets are the single configured dataset when one is named
    and none otherwise.  That tree is the structured seed. *)
Theorem tenant_construction (opt : option_) :
  types.ID (runServer_project opt) = Project opt
  /\ (Dataset opt <> "" ->
      types.Datasets (runServer_project opt) = [types.NewDataset (Dataset opt)]
      /\ map types.Dataset_ID (types.Datasets (runServer_project opt)) = [Dataset opt])
  /\ (Dataset opt = "" -> types.Datasets (runServer_project opt) = [])
  /\ (forall opt',
        Project opt' = Project opt -> Dataset opt' = Dataset opt ->
        runServer_project opt' = runServer_project opt)
  /\ (forall args sched s1,
        tenant_set opt s1 ->
        exists rest,
          loads (fst (runServer args opt sched))
          = server.StructSource (runServer_project opt) :: rest).
Proof.
  unfold runServer_project. repeat split.
  - now destruct (Dataset opt =? "").
  - rewrite (eqb_empty_false _ H). reflexivity.
  - rewrite (eqb_empty_false _ H). reflexivity.
  - intro H. now rewrite H.
  - intros opt' Hp Hd. now rewrite Hp, Hd.
  - intros args sched s1 Hs.
    destruct (runServer_log args opt sched) as (es & Hl & _).
    destruct (setup_seeds_project opt s1 Hs) as (rest & Hr).
    rewrite Hl, loads_app. unfold runServer_project in Hr. rewrite Hr.
    eexists. reflexivity.
Qed.

End Selection.

(** ** Seeding *)

Section Seeding.

Context {E : server.Engine} {P : Platform}.

(** The serving phase applies no seed. *)
Lemma runServer_loads args opt sched :
  loads (fst (runServer args opt sched)) = loads (fst (runServer_setup opt)).
Proof.
  destruct (runServer_log args opt sched) as (es & -> & Hes).
  rewrite loads_app.
  destruct (snd (runServer_setup opt)).
  - destruct Hes as (rt & -> & Hrt). rewrite loads_app.
    rewrite (runtime_loads context.Background rt Hrt). simpl.
    now rewrite app_nil_r.
  - subst es. now rewrite app_nil_r.
Qed.

(** C3.  In every run that reaches seeding (the engine is constructed
    and the tenant set), the seeds applied are the structured seed
    alone or the structured seed followed by the file seed: the
    structured seed is always applied and always first; the file seed
    is applied only for a non-empty path, and it is applied for every
    non-empty path once the structured seed and the log configuration
    have succeeded. *)
Theorem seed_order (opt : option_) (args : list string) (sched : list action)
    (s1 : server.Server) :
  tenant_set opt s1 ->
  let applied := loads (fst (runServer args opt sched)) in
  let structured := server.StructSource (runServer_project opt) in
  let file := server.YAMLSource (DataFromYAML opt) in
  (applied = [structured] \/ applied = [structured; file])
  /\ (applied = [structured; file] -> DataFromYAML opt <> "")
  /\ (DataFromYAML opt = "" -> applied = [structured])
  /\ (forall s4, format_set opt s4 -> DataFromYAML opt <> "" ->
                 applied = [structured; file]).
Proof.
  intros H applied structured file. subst applied structured file.
  rewrite runServer_loads.
  pose proof (setup_outcomes opt) as O.
  inversion O; open_stages; try congruence; cbn [fst]; simpl;
    (split; [auto|]); (split; [try discriminate; auto|]);
    (split; [try reflexivity; try congruence|]);
    intros; open_stages; try reflexivity; congruence.
Qed.

(** C4.  When a seed source gives an error, [runServer] returns that
    error for every schedule, the failed [Load] is the last event of
    the log, and the log holds no launch event.  A launch event in a
    log implies that every set-up step succeeded; and every log splits
    into set-up events followed by events that are not set-up calls. *)
Theorem seed_error_aborts (opt : option_) (args : list string)
    (sched : list action) :
  (forall e, seed_failed opt e ->
     snd (runServer args opt sched) = Returned (Some e)
     /\ (exists t src, fst (runServer args opt sched) = (t ++ [CallLoad src])%list)
     /\ (forall ev, In ev (fst (runServer args opt sched)) -> is_launch ev = false))
  /\ (forall ev, In ev (fst (runServer args opt sched)) -> is_launch ev = true ->
        exists s, setup_succeeded opt s)
  /\ (exists t rest,
        fst (runServer args opt sched) = (t ++ rest)%list
        /\ (forall ev, In ev t -> is_launch ev = false)
        /\ (forall ev, In ev rest -> is_engine_setup ev = false)).
Proof.
  split; [|split].
  - intros e H.
    assert (R : exists t src,
               runServer_setup opt = ((t ++ [CallLoad src])%list, Return (Some e))).
    { pose proof (setup_outcomes opt) as O.
      inversion O as [ | | | | ? ? ? ? ? Hs| | | ? ? ? ? ? ? Hs| | ];
        destruct H as [H|H]; open_stages; try congruence.
      - exists (firstn 2 (calls_before_file_seed opt)),
          (server.StructSource (runServer_project opt)).
        cbn [firstn calls_before_file_seed app]. repeat f_equal. congruence.
      - exists (calls_before_file_seed opt),
          (server.YAMLSource (DataFromYAML opt)).
        repeat f_equal. congruence. }
    destruct R as (t & src & R).
    rewrite (runServer_early args opt sched _ _ R). cbn [fst snd].
    split; [reflexivity|]. split; [eauto|].
    intros ev Hin. apply (setup_log_quiet opt). now rewrite R.
  - intros ev Hin Hl.
    destruct (runServer_log args opt sched) as (es & Hlog & Hes).
    destruct (runServer_setup opt) as [t [s|r]] eqn:Hs; cbn [fst snd] in *.
    + exists s. pose proof (setup_outcomes opt) as O. rewrite Hs in O.
      inversion O; subst.
      * left. split; assumption.
      * right. split; [assumption|]. eauto.
    + subst es. rewrite app_nil_r in Hlog. rewrite Hlog in Hin.
      pose proof (setup_log_quiet opt ev) as Q. rewrite Hs in Q.
      rewrite (Q Hin) in Hl. discriminate.
  - destruct (runServer_log args opt sched) as (es & Hlog & Hes).
    exists (fst (runServer_setup opt)), es. split; [exact Hlog|].
    split; [apply setup_log_quiet|].
    destruct (snd (runServer_setup opt)).
    + destruct Hes as (rt & -> & Hrt). intros ev Hin.
      apply in_app_or in Hin as [Hin|Hin].
      * simpl in Hin. intuition (subst; reflexivity).
      * now apply (runtime_not_setup context.Background rt Hrt).
    + subst es. intros ev [].
Qed.

End Seeding.

(** ** Serving and shutting down *)

Section Serving.

Context {E : server.Engine} {P : Platform}.

Lemma errors_Is_sentinel : errors_Is (Some ErrServerClosed) ErrServerClosed = true.
Proof. reflexivity. Qed.

(** [errors.Is] follows the [Unwrap] chain: an error that wraps the
    sentinel matches it as the sentinel does. *)
Lemma errors_Is_wrapped msg e :
  errors_Is (Some e) ErrServerClosed = true ->
  errors_Is (Some (WrapError msg e)) ErrServerClosed = true.
Proof. simpl. now intros ->. Qed.

(** While [Serve] has not returned, [runServer] stays in its [select]
    and the serve goroutine is before or inside [Serve]. *)
Lemma exec_serving opt ctx pre st :
  (forall w, ~ In (ServeReturns w) pre) ->
  main_ st = MainSelect ->
  serve st = ServeSpawned \/ serve st = ServeInServe ->
  main_ (exec opt ctx pre st) = MainSelect
  /\ (serve (exec opt ctx pre st) = ServeSpawned
      \/ serve (exec opt ctx pre st) = ServeInServe).
Proof.
  revert st. induction pre as [|a pre IH]; intros st Hn Hm Hs; simpl; [auto|].
  assert (Hn' : forall w, ~ In (ServeReturns w) pre).
  { intros w Hw. apply (Hn w). now right. }
  destruct (step opt ctx a st) as [st'|] eqn:Hst; [|now apply IH].
  assert (K : main_ st' = MainSelect
              /\ (serve st' = ServeSpawned \/ serve st' = ServeInServe)).
  { unfold step in Hst. rewrite Hm in Hst.
    destruct a as [sg| |r| |r| ].
    - destruct (interrupt st); injection Hst as <-; cbn [main_ serve]; auto.
    - destruct (watch st); try discriminate.
      destruct (interrupt st); [|discriminate].
      injection Hst as <-. cbn [main_ serve]. auto.
    - destruct (watch st); try discriminate.
      injection Hst as <-. cbn [main_ serve]. auto.
    - destruct (serve st); try discriminate.
      injection Hst as <-. cbn [main_ serve]. auto.
    - exfalso. apply (Hn r). now left.
    - destruct Hs as [Hs|Hs]; rewrite Hs in Hst; discriminate. }
  destruct K as (Km & Ks). now apply IH.
Qed.

(** When [Serve] then returns [v] and the value is handed over,
    [runServer] returns [onDone v]. *)
Lemma exec_serve_returns opt ctx st v :
  main_ st = MainSelect ->
  serve st = ServeSpawned \/ serve st = ServeInServe ->
  main_ (exec opt ctx [ServeStart; ServeReturns v; DoneHandoff] st)
  = MainReturn (onDone v).
Proof.
  intros Hm [Hs|Hs]; simpl; unfold step; rewrite Hm, Hs; cbn; reflexivity.
Qed.

Lemma spawned_select t : main_ (spawned t) = MainSelect.
Proof. reflexivity. Qed.

Lemma spawned_serve t : serve (spawned t) = ServeSpawned.
Proof. reflexivity. Qed.

(** The same at the level of [runServer]. *)
Lemma runServer_serve_returns args opt s pre v :
  setup_succeeded opt s ->
  (forall w, ~ In (ServeReturns w) pre) ->
  snd (runServer args opt (pre ++ [ServeStart; ServeReturns v; DoneHandoff]))
  = Returned (onDone v).
Proof.
  intros Hok Hn.
  destruct (setup_succeeded_run opt s Hok) as (t & Hs & _).
  rewrite (runServer_launched args opt _ t s Hs). cbn [snd].
  rewrite exec_app.
  destruct (exec_serving opt context.Background pre (spawned t) Hn
              (spawned_select t) (or_introl (spawned_serve t))) as (Hm & Hsv).
  now rewrite (exec_serve_returns opt context.Background _ v Hm Hsv).
Qed.

(** Every value [runServer] returns from its [select] is [onDone] of a
    value that [Serve] returned. *)
Lemma runServer_returns_served args opt s sched r :
  setup_succeeded opt s ->
  snd (runServer args opt sched) = Returned r ->
  exists v, In (ServeReturns v) sched /\ r = onDone v.
Proof.
  intros Hok Hr.
  destruct (setup_succeeded_run opt s Hok) as (t & Hs & _).
  rewrite (runServer_launched args opt sched t s Hs) in Hr. cbn [snd] in Hr.
  destruct (main_ (exec opt context.Background sched (spawned t))) as [|r'] eqn:Hm;
    [discriminate|].
  injection Hr as ->.
  destruct (exec_return opt context.Background sched (spawned t) r
              (spawned_select t) Hm) as (v & Hv & [Hsend|Hin]).
  - discriminate.
  - eauto.
Qed.

(** Forgetting the values returned by [Stop] changes the logs only. *)
Lemma step_same_pcs opt ctx a st st' :
  same_pcs st st' ->
  match step opt ctx a st, step opt ctx (forget_stop a) st' with
  | Some x, Some y => same_pcs x y
  | None, None => True
  | _, _ => False
  end.
Proof.
  destruct st as [i w s m l], st' as [i' w' s' m' l'].
  unfold same_pcs. cbn. intros (<- & <- & <- & <-).
  unfold step. cbn.
  destruct m; [|exact I].
  destruct a; cbn; try destruct i; try destruct w; try destruct s;
    cbn; auto.
Qed.

Lemma exec_same_pcs opt ctx sched st st' :
  same_pcs st st' ->
  same_pcs (exec opt ctx sched st) (exec opt ctx (map forget_stop sched) st').
Proof.
  revert st st'. induction sched as [|a sched IH]; intros st st' H; [exact H|].
  simpl. pose proof (step_same_pcs opt ctx a st st' H) as Hs.
  destruct (step opt ctx a st), (step opt ctx (forget_stop a) st');
    try contradiction; now apply IH.
Qed.

Lemma same_pcs_refl st : same_pcs st st.
Proof. repeat split. Qed.

Lemma runServer_forget_stop args opt sched :
  snd (runServer args opt sched) = snd (runServer args opt (map forget_stop sched)).
Proof.
  unfold runServer. destruct (runServer_setup opt) as [t [s|r]]; [|reflexivity].
  cbn [snd].
  destruct (exec_same_pcs opt context.Background sched _ _ (same_pcs_refl (spawned t)))
    as (_ & _ & _ & ->).
  reflexivity.
Qed.

(** The exit code of [run] is a function of the parse results and of
    what [runServer] returns. *)
Lemma run_exit_congruence sched sched' :
  (forall args opt, snd (runServer args opt sched) = snd (runServer args opt sched')) ->
  snd (run sched) = snd (run sched').
Proof.
  intro H. unfold run.
  destruct parseEnv as [opt0 [e|]]; [reflexivity|].
  destruct (parseOpt opt0) as [[opt args] [e|]].
  - reflexivity.
  - specialize (H args opt).
    destruct (runServer args opt sched) as [t r],
             (runServer args opt sched') as [t' r'].
    cbn [snd] in H. subst r'. now destruct r as [|[e|]].
Qed.

End Serving.

(** ** The exit status *)

Section ExitStatus.

Context {E : server.Engine} {P : Platform}.

Lemma tasks_after_runServer args opt sched st :
  tasks_after opt sched = Some st ->
  runServer args opt sched
  = (log st, match main_ st with MainReturn r => Returned r | MainSelect => Blocked end).
Proof.
  unfold tasks_after, runServer.
  destruct (runServer_setup opt) as [t [s|r]]; [|discriminate].
  now intros [= <-].
Qed.

Lemma tasks_after_app opt pre more st :
  tasks_after opt pre = Some st ->
  tasks_after opt (pre ++ more) = Some (exec opt context.Background more st).
Proof.
  unfold tasks_after.
  destruct (runServer_setup opt) as [t [s|r]]; [|discriminate].
  intros [= <-]. now rewrite exec_app.
Qed.

(** A [Stop] that fails while [Serve] is still running: the error is
    printed, and when [Serve] returns [v] the process ends on
    [onDone v]. *)
Lemma failed_stop_then_serve args opt pre st e v :
  tasks_after opt pre = Some st ->
  main_ st = MainSelect -> watch st = WatchInStop ->
  serve st = ServeSpawned \/ serve st = ServeInServe ->
  let sched := (pre ++ [StopReturns (Some e); ServeStart; ServeReturns v; DoneHandoff])%list in
  snd (runServer args opt sched) = Returned (onDone v)
  /\ In (Stderr ("[bigquery-emulator] failed to stop: " ++ error_Error e ++ nl))
        (fst (runServer args opt sched)).
Proof.
  intros Ht Hm Hw Hs sched. subst sched.
  rewrite (tasks_after_runServer args opt _ _ (tasks_after_app opt pre _ st Ht)).
  cbn [fst snd].
  change [StopReturns (Some e); ServeStart; ServeReturns v; DoneHandoff]
    with ([StopReturns (Some e)] ++ [ServeStart; ServeReturns v; DoneHandoff])%list.
  rewrite exec_app.
  set (st1 := exec opt context.Background [StopReturns (Some e)] st).
  assert (H1 : st1 = mkTasks (interrupt st) WatchExit (serve st) MainSelect
                       (say st [Stderr ("[bigquery-emulator] failed to stop: "
                                        ++ error_Error e ++ nl)])).
  { subst st1. simpl. unfold step. now rewrite Hm, Hw. }
  assert (Hm1 : main_ st1 = MainSelect) by now rewrite H1.
  assert (Hs1 : serve st1 = ServeSpawned \/ serve st1 = ServeInServe)
    by now rewrite H1.
  rewrite (exec_serve_returns opt context.Background st1 v Hm1 Hs1).
  split; [reflexivity|].
  destruct (exec_log opt context.Background
              [ServeStart; ServeReturns v; DoneHandoff] st1) as (es & -> & _).
  apply in_or_app. left. rewrite H1. cbn [log]. unfold say.
  apply in_or_app. right. now left.
Qed.

(** C1.  After a set-up that went through, whatever [runServer] returns
    is [onDone] of a value that [Serve] returned, and the exit code
    follows from it.  Whatever happened while [Serve] was running
    (signals, a [Stop] and its result), once [Serve] returns [v] and
    the value is handed over on [done]: if [v] is the sentinel
    [http.ErrServerClosed] in the sense of [errors.Is], [runServer]
    returns nil and the process exits 0; if [v] is any other error,
    [runServer] returns that error and the process exits 1 with the
    error as the last line of its log. *)
Theorem exit_status_from_serve (opt : option_) (args : list string)
    (s : server.Server) :
  setup_succeeded opt s -> parses_to opt args ->
  (forall sched r,
      snd (runServer args opt sched) = Returned r ->
      exists v, In (ServeReturns v) sched /\ r = onDone v
                /\ snd (run sched) = Some (exitCode_of (onDone v)))
  /\ (forall pre v,
        (forall w, ~ In (ServeReturns w) pre) ->
        let sched := (pre ++ [ServeStart; ServeReturns v; DoneHandoff])%list in
        (errors_Is v ErrServerClosed = true ->
           snd (runServer args opt sched) = Returned None
           /\ snd (run sched) = Some exitOK)
        /\ (forall e, v = Some e -> errors_Is v ErrServerClosed = false ->
              snd (runServer args opt sched) = Returned (Some e)
              /\ snd (run sched) = Some exitError
              /\ exists t, fst (run sched) = (t ++ [Stderr (error_Error e ++ nl)])%list)).
Proof.
  intros Hok Hp. split.
  - intros sched r Hr.
    destruct (runServer_returns_served args opt s sched r Hok Hr) as (v & Hin & ->).
    exists v. repeat split; [exact Hin|].
    now rewrite (run_exit opt args sched Hp), Hr.
  - intros pre v Hn sched.
    pose proof (runServer_serve_returns args opt s pre v Hok Hn) as R.
    fold sched in R. split.
    + intro Hc. rewrite (onDone_closed v Hc) in R. split; [exact R|].
      now rewrite (run_exit opt args sched Hp), R.
    + intros e -> Hc. rewrite (onDone_other _ Hc) in R.
      split; [exact R|]. split.
      * now rewrite (run_exit opt args sched Hp), R.
      * rewrite (run_parsed opt args sched Hp).
        destruct (runServer args opt sched) as [t r]. cbn [snd] in R. subst r.
        exists t. reflexivity.
Qed.

(** While the signal-watch goroutine has not received, it stays in its
    [select]. *)
Lemma exec_watch_select opt ctx pre st :
  ~ In WatchReceive pre -> watch st = WatchSelect ->
  watch (exec opt ctx pre st) = WatchSelect.
Proof.
  revert st. induction pre as [|a pre IH]; intros st Hn Hw; [exact Hw|].
  assert (Hn' : ~ In WatchReceive pre) by (intro K; apply Hn; now right).
  simpl. destruct (step opt ctx a st) as [st'|] eqn:Hs; [|now apply IH].
  apply IH; [exact Hn'|].
  unfold step in Hs. destruct (main_ st); [|discriminate].
  destruct a as [sg| |r| |r| ].
  - destruct (interrupt st); injection Hs as <-; exact Hw.
  - exfalso. apply Hn. now left.
  - rewrite Hw in Hs. discriminate.
  - destruct (serve st); try discriminate. injection Hs as <-. exact Hw.
  - destruct (serve st); try discriminate. injection Hs as <-. exact Hw.
  - destruct (serve st); try discriminate. injection Hs as <-. exact Hw.
Qed.

(** A signal that is handled while [Serve] has not returned, followed by
    a [Stop] that fails: the error is printed, and the process ends on
    what [Serve] returns. *)
Lemma signal_then_failed_stop args opt s pre sg e v :
  setup_succeeded opt s ->
  (forall w, ~ In (ServeReturns w) pre) -> ~ In WatchReceive pre ->
  let sched := (pre ++ [Deliver sg; WatchReceive; StopReturns (Some e);
                        ServeStart; ServeReturns v; DoneHandoff])%list in
  snd (runServer args opt sched) = Returned (onDone v)
  /\ In (stop_failure_line e) (fst (runServer args opt sched)).
Proof.
  intros Hok Hn Hr sched. subst sched.
  destruct (setup_succeeded_run opt s Hok) as (t & Hs & _).
  assert (Ht : tasks_after opt pre
               = Some (exec opt context.Background pre (spawned t)))
    by (unfold tasks_after; now rewrite Hs).
  destruct (exec_serving opt context.Background pre (spawned t) Hn
              (spawned_select t) (or_introl (spawned_serve t))) as (Hm & Hsv).
  pose proof (exec_watch_select opt context.Background pre (spawned t) Hr eq_refl) as Hw.
  set (st := exec opt context.Background pre (spawned t)) in *.
  pose proof (tasks_after_app opt pre [Deliver sg; WatchReceive] st Ht) as Ht2.
  set (st2 := exec opt context.Background [Deliver sg; WatchReceive] st) in *.
  assert (K : main_ st2 = MainSelect /\ watch st2 = WatchInStop /\ serve st2 = serve st).
  { subst st2. simpl. unfold step. rewrite Hm.
    destruct (interrupt st) as [s0|] eqn:Hi; cbn [main_ watch interrupt serve];
      rewrite ?Hm, ?Hw, ?Hi; cbn [main_ watch interrupt serve]; auto. }
  destruct K as (Km & Kw & Ks). rewrite <- Ks in Hsv.
  replace (pre ++ [Deliver sg; WatchReceive; StopReturns (Some e);
                   ServeStart; ServeReturns v; DoneHandoff])%list
    with ((pre ++ [Deliver sg; WatchReceive])
          ++ [StopReturns (Some e); ServeStart; ServeReturns v; DoneHandoff])%list
    by (now rewrite <- app_assoc).
  exact (failed_stop_then_serve args opt (pre ++ [Deliver sg; WatchReceive])%list
           st2 e v Ht2 Km Kw Hsv).
Qed.

(** The whole run of a shutdown whose [Stop] fails: [Serve] starts, the
    signal [sg] arrives and is received, [Stop] returns [e], [Serve]
    returns [v] and the value is handed over. *)
Lemma failed_stop_run args opt s sg e v :
  setup_succeeded opt s ->
  runServer args opt
    [ServeStart; Deliver sg; WatchReceive; StopReturns (Some e);
     ServeReturns v; DoneHandoff]
  = ((fst (runServer_setup opt) ++ launch_events
      ++ serve_start_events opt context.Background
      ++ [receive_line sg; CallStop context.Background; stop_failure_line e])%list,
     Returned (onDone v)).
Proof.
  intro Hok. destruct (setup_succeeded_run opt s Hok) as (t & Hs & _).
  rewrite (runServer_launched args opt _ t s Hs), Hs. cbn [fst].
  simpl. unfold step, say, spawned. cbn. f_equal.
  unfold launch_events, serve_start_events, receive_line, stop_failure_line, listen_addr.
  now rewrite <- !app_assoc.
Qed.

(** C6.  The return of [Stop] changes nothing but the log: the
    signal-watch goroutine ends, an error is printed on the standard
    error stream, and the other tasks and the value on [done] are as
    before.  Two schedules that differ only in what [Stop] returns
    give the same result of [runServer] and the same exit code; and a
    [Stop] that fails while [Serve] runs is logged while the result is
    [onDone] of what [Serve] returns.  After every set-up that went
    through, a signal that is received while [Serve] has not returned
    and whose [Stop] gives the error [e] puts the line for [e] in the
    log, and [runServer] returns [onDone] of what [Serve] returns, so
    the exit code is that of [Serve]'s value whatever [e] is; the run
    in which [Serve] starts, a signal is handled, [Stop] fails and
    [Serve] returns has exactly the log given, with the line for [e]
    last. *)
Theorem stop_error_is_only_logged (opt : option_) (args : list string) :
  (forall ctx r st st',
      step opt ctx (StopReturns r) st = Some st' ->
      interrupt st' = interrupt st /\ serve st' = serve st /\ main_ st' = main_ st
      /\ watch st' = WatchExit
      /\ log st' = (log st ++
           match r with
           | Some e => [Stderr ("[bigquery-emulator] failed to stop: "
                                ++ error_Error e ++ nl)]
           | None => []
           end)%list)
  /\ (forall sched sched',
        map forget_stop sched = map forget_stop sched' ->
        snd (runServer args opt sched) = snd (runServer args opt sched')
        /\ snd (run sched) = snd (run sched'))
  /\ (forall pre st e v,
        tasks_after opt pre = Some st ->
        main_ st = MainSelect -> watch st = WatchInStop ->
        serve st = ServeSpawned \/ serve st = ServeInServe ->
        let sched :=
          (pre ++ [StopReturns (Some e); ServeStart; ServeReturns v; DoneHandoff])%list in
        snd (runServer args opt sched) = Returned (onDone v)
        /\ In (Stderr ("[bigquery-emulator] failed to stop: " ++ error_Error e ++ nl))
              (fst (runServer args opt sched)))
  /\ (forall s pre sg e v,
        setup_succeeded opt s ->
        (forall w, ~ In (ServeReturns w) pre) -> ~ In WatchReceive pre ->
        let sched := (pre ++ [Deliver sg; WatchReceive; StopReturns (Some e);
                              ServeStart; ServeReturns v; DoneHandoff])%list in
        snd (runServer args opt sched) = Returned (onDone v)
        /\ In (Stderr ("[bigquery-emulator] failed to stop: " ++ error_Error e ++ nl))
              (fst (runServer args opt sched))
        /\ (parses_to opt args -> snd (run sched) = Some (exitCode_of (onDone v))))
  /\ (forall s sg e v,
        setup_succeeded opt s ->
        let sched := [ServeStart; Deliver sg; WatchReceive; StopReturns (Some e);
                      ServeReturns v; DoneHandoff] in
        runServer args opt sched
        = ((fst (runServer_setup opt) ++ launch_events
            ++ serve_start_events opt context.Background
            ++ [receive_line sg; CallStop context.Background;
                Stderr ("[bigquery-emulator] failed to stop: "
                        ++ error_Error e ++ nl)])%list,
           Returned (onDone v))
        /\ (parses_to opt args -> snd (run sched) = Some (exitCode_of (onDone v)))).
Proof.
  split; [|split; [|split; [|split]]].
  - intros ctx r st st'. unfold step, say.
    destruct (main_ st) eqn:Hm; [|discriminate].
    destruct (watch st); try discriminate.
    intros [= <-]. cbn.
    destruct r; rewrite ?app_nil_r; auto.
  - intros sched sched' H. split.
    + now rewrite (runServer_forget_stop args opt sched),
                  (runServer_forget_stop args opt sched'), H.
    + apply run_exit_congruence. intros args' opt'.
      now rewrite (runServer_forget_stop args' opt' sched),
                  (runServer_forget_stop args' opt' sched'), H.
  - intros pre st e v. apply failed_stop_then_serve.
  - intros s pre sg e v Hok Hn Hr sched.
    destruct (signal_then_failed_stop args opt s pre sg e v Hok Hn Hr) as (R & L).
    fold sched in R, L. split; [exact R|]. split; [exact L|].
    intro Hp. now rewrite (run_exit opt args sched Hp), R.
  - intros s sg e v Hok sched.
    pose proof (failed_stop_run args opt s sg e v Hok) as R. fold sched in R.
    split; [exact R|].
    intro Hp. now rewrite (run_exit opt args sched Hp), R.
Qed.

(** C7, as the code has it.  Every context given to [Stop] is
    [context.Background()], which has no deadline: the coordinator puts
    no bound on the drain.  When [Stop] returns an error while [Serve]
    runs, the error is logged and the process still ends through the
    [done] channel, on what [Serve] returns. *)
Theorem stop_context_is_background (opt : option_) (args : list string) :
  (forall sched ctx,
      In (CallStop ctx) (fst (runServer args opt sched)) ->
      ctx = context.Background /\ context.Deadline ctx = None)
  /\ (forall pre st e v,
        tasks_after opt pre = Some st ->
        main_ st = MainSelect -> watch st = WatchInStop ->
        serve st = ServeSpawned \/ serve st = ServeInServe ->
        let sched :=
          (pre ++ [StopReturns (Some e); ServeStart; ServeReturns v; DoneHandoff])%list in
        snd (runServer args opt sched) = Returned (onDone v)
        /\ In (Stderr ("[bigquery-emulator] failed to stop: " ++ error_Error e ++ nl))
              (fst (runServer args opt sched))).
Proof.
  split.
  - intros sched ctx Hin.
    assert (Hc : ctx = context.Background).
    { destruct (runServer_log args opt sched) as (es & Hl & Hes).
      rewrite Hl in Hin. apply in_app_or in Hin as [Hin|Hin].
      - apply setup_log_quiet in Hin. discriminate.
      - destruct (snd (runServer_setup opt)).
        + destruct Hes as (rt & -> & Hrt).
          apply in_app_or in Hin as [Hin|Hin].
          * simpl in Hin. intuition discriminate.
          * rewrite Forall_forall in Hrt. exact (Hrt _ Hin).
        + subst es. destruct Hin. }
    subst ctx. split; reflexivity.
  - intros pre st e v. apply failed_stop_then_serve.
Qed.

End ExitStatus.

(** * The properties on the test engine *)

Lemma test_parses (cfg : option_) : @parses_to (testPlatform cfg None) cfg [].
Proof. exists option_zero. split; reflexivity. Qed.

Ltac test_tenant_set :=
  exists []; split; [|reflexivity];
  split; [reflexivity | split; [discriminate | reflexivity]].

Ltac test_format_set :=
  eexists; split; [|reflexivity];
  eexists; split; [|reflexivity];
  exists []; split; [|reflexivity];
  test_tenant_set.

Lemma proj1_tenant_set : @tenant_set testEngine cfg_proj1 [].
Proof. test_tenant_set. Qed.

Lemma proj1_setup_succeeded :
  @setup_succeeded testEngine cfg_proj1
    [server.StructSource (runServer_project cfg_proj1)].
Proof. left. split; [reflexivity|]. test_format_set. Qed.

Lemma seed_file_tenant_set : @tenant_set testEngine cfg_seed_file [].
Proof. test_tenant_set. Qed.

Lemma seed_file_format_set :
  @format_set testEngine cfg_seed_file
    [server.StructSource (runServer_project cfg_seed_file)].
Proof. test_format_set. Qed.

Lemma bad_seed_failed :
  @seed_failed testEngine cfg_bad_seed
    (WrapError "open missing.yaml: no such file or directory"
       (PlainError "no such file or directory")).
Proof.
  right. exists [server.StructSource (runServer_project cfg_bad_seed)].
  eexists. split; [test_format_set|]. split; [discriminate | reflexivity].
Qed.

Lemma version_request_skips_everything_witness :
  Version cfg_version = true /\ Project cfg_version = ""
  /\ @run testEngine (testPlatform cfg_version None) sched_graceful
     = ([Stdout ("version: 0.6.6 (f5a7c1d)" ++ nl)], Some exitOK).
Proof.
  split; [reflexivity|]. split; [reflexivity|].
  apply (proj2 (@version_request_skips_everything testEngine
                  (testPlatform cfg_version None) cfg_version [] sched_graceful eq_refl)).
  apply test_parses.
Defined.

Lemma missing_project_is_fatal_witness :
  Version cfg_no_project = false /\ Project cfg_no_project = ""
  /\ @run testEngine (testPlatform cfg_no_project None) sched_graceful
     = ([Stderr ("the required flag --project was not specified" ++ nl)], Some exitError).
Proof.
  split; [reflexivity|]. split; [reflexivity|].
  apply (proj2 (@missing_project_is_fatal testEngine (testPlatform cfg_no_project None)
                  cfg_no_project [] sched_graceful eq_refl eq_refl)).
  apply test_parses.
Defined.

Lemma exit_codes_witness :
  snd (@run testEngine (testPlatform cfg_proj1 (Some (FlagsError flags.ErrHelp "Usage:")))
         sched_graceful) = Some exitOK
  /\ snd (@run testEngine (testPlatform cfg_version None) sched_graceful) = Some exitOK
  /\ snd (@run testEngine
            (testPlatform cfg_proj1 (Some (FlagsError flags.ErrUnknownFlag "unknown flag")))
            sched_graceful) = Some exitError
  /\ snd (@run testEngine (testPlatform cfg_bad_seed None) sched_graceful) = Some exitError.
Proof.
  split; [|split; [|split]].
  - apply (proj1 (proj2 (proj2 (@exit_codes testEngine
             (testPlatform cfg_proj1 (Some (FlagsError flags.ErrHelp "Usage:")))
             sched_graceful)))
           option_zero cfg_proj1 [] "Usage:"); reflexivity.
  - apply (proj1 (proj2 (proj2 (proj2 (@exit_codes testEngine
             (testPlatform cfg_version None) sched_graceful))))
           cfg_version []); [apply test_parses | reflexivity].
  - apply (proj1 (proj2 (proj2 (proj2 (proj2 (proj2 (proj2 (@exit_codes testEngine
             (testPlatform cfg_proj1 (Some (FlagsError flags.ErrUnknownFlag "unknown flag")))
             sched_graceful)))))))
           option_zero cfg_proj1 [] (FlagsError flags.ErrUnknownFlag "unknown flag"));
      [reflexivity | reflexivity | discriminate].
  - apply (proj1 (proj2 (proj2 (proj2 (proj2 (@exit_codes testEngine
             (testPlatform cfg_bad_seed None) sched_graceful)))))
           cfg_bad_seed []
           (WrapError "open missing.yaml: no such file or directory"
              (PlainError "no such file or directory")));
      [apply test_parses | reflexivity].
Defined.

Lemma storage_selection_witness :
  Database cfg_proj1 = "" /\ Database cfg_seed_file <> ""
  /\ @runServer_db testEngine cfg_proj1 = @server.TempStorage testEngine
  /\ @runServer_db testEngine cfg_seed_file = "file:/var/lib/bq.db?cache=shared".
Proof.
  split; [reflexivity|]. split; [discriminate|]. split.
  - apply (proj1 (@storage_selection testEngine (testPlatform cfg_proj1 None) cfg_proj1)).
    reflexivity.
  - apply (proj1 (proj2 (@storage_selection testEngine (testPlatform cfg_seed_file None)
                           cfg_seed_file))).
    discriminate.
Defined.

Lemma tenant_construction_witness :
  Dataset cfg_proj1 <> "" /\ Dataset cfg_seed_file = ""
  /\ map types.Dataset_ID (types.Datasets (runServer_project cfg_proj1)) = ["ds1"]
  /\ types.Datasets (runServer_project cfg_seed_file) = [].
Proof.
  split; [discriminate|]. split; [reflexivity|]. split.
  - apply (proj1 (proj2 (@tenant_construction testEngine (testPlatform cfg_proj1 None)
                           cfg_proj1))).
    discriminate.
  - apply (proj1 (proj2 (proj2 (@tenant_construction testEngine
                                  (testPlatform cfg_seed_file None) cfg_seed_file)))).
    reflexivity.
Defined.

Lemma seed_order_witness :
  @tenant_set testEngine cfg_seed_file []
  /\ loads (fst (@runServer testEngine (testPlatform cfg_seed_file None) []
                   cfg_seed_file sched_graceful))
     = [server.StructSource (runServer_project cfg_seed_file);
        server.YAMLSource "seed.yaml"].
Proof.
  split; [exact seed_file_tenant_set|].
  apply (proj2 (proj2 (proj2 (@seed_order testEngine (testPlatform cfg_seed_file None)
                                cfg_seed_file [] sched_graceful []
                                seed_file_tenant_set)))
           [server.StructSource (runServer_project cfg_seed_file)]
           seed_file_format_set).
  discriminate.
Defined.

Lemma seed_error_aborts_witness :
  snd (@runServer testEngine (testPlatform cfg_bad_seed None) [] cfg_bad_seed sched_graceful)
  = Returned (Some (WrapError "open missing.yaml: no such file or directory"
                      (PlainError "no such file or directory"))).
Proof.
  apply (proj1 (@seed_error_aborts testEngine (testPlatform cfg_bad_seed None)
                  cfg_bad_seed [] sched_graceful) _ bad_seed_failed).
Defined.

Lemma exit_status_from_serve_witness :
  snd (@run testEngine (testPlatform cfg_proj1 None)
         (sched_early_signal
          ++ [ServeStart; ServeReturns (Some ErrServerClosed); DoneHandoff]))
  = Some exitOK
  /\ snd (@run testEngine (testPlatform cfg_proj1 None) sched_bind_fails) = Some exitError.
Proof.
  pose proof (proj2 (@exit_status_from_serve testEngine (testPlatform cfg_proj1 None)
                       cfg_proj1 [] _ proj1_setup_succeeded (test_parses cfg_proj1))) as H.
  split.
  - apply (proj1 (H sched_early_signal (Some ErrServerClosed)
                    ltac:(intros w Hw; simpl in Hw; intuition discriminate))).
    reflexivity.
  - apply (proj2 (H [] (Some (PlainError
                     "listen tcp 0.0.0.0:9050: bind: address already in use"))
                    ltac:(intros w Hw; exact Hw)) _ eq_refl).
    reflexivity.
Defined.

Lemma stop_error_is_only_logged_witness :
  snd (@runServer testEngine (testPlatform cfg_proj1 None) [] cfg_proj1 sched_stop_fails)
  = Returned None
  /\ In (Stderr ("[bigquery-emulator] failed to stop: context deadline exceeded" ++ nl))
        (fst (@runServer testEngine (testPlatform cfg_proj1 None) [] cfg_proj1
                sched_stop_fails))
  /\ snd (@run testEngine (testPlatform cfg_proj1 None) sched_stop_fails) = Some exitOK
  /\ snd (@run testEngine (testPlatform cfg_proj1 None) sched_graceful) = Some exitOK
  /\ snd (@runServer testEngine (testPlatform cfg_proj1 None) [] cfg_proj1
            (sched_stopping
             ++ [StopReturns (Some (PlainError "context deadline exceeded"));
                 ServeStart; ServeReturns (Some ErrServerClosed); DoneHandoff]))
     = Returned None
  /\ In (Stderr ("[bigquery-emulator] failed to stop: context deadline exceeded" ++ nl))
        (fst (@runServer testEngine (testPlatform cfg_proj1 None) [] cfg_proj1
                (sched_stopping
                 ++ [StopReturns (Some (PlainError "context deadline exceeded"));
                     ServeStart; ServeReturns (Some ErrServerClosed); DoneHandoff]))).
Proof.
  pose proof (@stop_error_is_only_logged testEngine (testPlatform cfg_proj1 None)
                cfg_proj1 []) as (_ & Hsame & Hstate & _ & Hrun).
  pose proof (Hrun _ SIGTERM (PlainError "context deadline exceeded")
                (Some ErrServerClosed) proj1_setup_succeeded) as H.
  cbv zeta in H. destruct H as (H1 & H2).
  specialize (H2 (test_parses cfg_proj1)).
  change [ServeStart; Deliver SIGTERM; WatchReceive;
          StopReturns (Some (PlainError "context deadline exceeded"));
          ServeReturns (Some ErrServerClosed); DoneHandoff]
    with sched_stop_fails in H1, H2.
  split; [rewrite H1; reflexivity|].
  split; [rewrite H1; cbn [fst]; repeat (apply in_or_app; right); simpl; tauto|].
  split; [exact H2|].
  split.
  - rewrite (proj2 (Hsame sched_graceful sched_stop_fails eq_refl)). exact H2.
  - exact (Hstate sched_stopping
             (exec cfg_proj1 context.Background sched_stopping
                (spawned (fst (@runServer_setup testEngine (testPlatform cfg_proj1 None)
                                 cfg_proj1))))
             (PlainError "context deadline exceeded") (Some ErrServerClosed)
             eq_refl eq_refl eq_refl (or_intror eq_refl)).
Defined.

Lemma stop_context_is_background_witness :
  In (CallStop context.Background)
     (fst (@runServer testEngine (testPlatform cfg_proj1 None) [] cfg_proj1 sched_stop_fails))
  /\ context.Deadline context.Background = None.
Proof.
  assert (Hin : In (CallStop context.Background)
                  (fst (@runServer testEngine (testPlatform cfg_proj1 None) []
                          cfg_proj1 sched_stop_fails))).
  { vm_compute. tauto. }
  split; [exact Hin|].
  apply (proj1 (@stop_context_is_background testEngine (testPlatform cfg_proj1 None)
                  cfg_proj1 []) sched_stop_fails context.Background Hin).
Defined.

(** C7, as the claim has it, fails on the run in which a termination
    signal is handled: the context given to [Stop] has no deadline. *)
Lemma stop_context_deadline_counterexample :
  ~ (forall ctx,
        In (CallStop ctx)
           (fst (@runServer testEngine (testPlatform cfg_proj1 None) []
                   cfg_proj1 sched_stop_fails)) ->
        exists d, context.Deadline ctx = Some d).
Proof.
  intro H. destruct (H context.Background) as (d & Hd).
  - vm_compute. tauto.
  - discriminate.
Qed.

(** * Further properties of the coordinator *)

(** ** What [Serve] returns and how the process ends *)

Lemma wrap_all_closed (e : error) :
  errors_Is_chain e ErrServerClosed = true <->
  exists msgs, e = wrap_all msgs ErrServerClosed.
Proof.
  induction e as [|ty msg|msg|msg inner IH]; simpl.
  - split; [exists []; reflexivity | reflexivity].
  - split; [discriminate | intros ([|m msgs] & H); discriminate].
  - split; [discriminate | intros ([|m msgs] & H); discriminate].
  - rewrite IH. split.
    + intros (msgs & ->). exists (msg :: msgs). reflexivity.
    + intros ([|m msgs] & H); [discriminate|].
      injection H as -> ->. exists msgs. reflexivity.
Qed.

Lemma onDone_nil_iff (v : option error) :
  onDone v = None <->
  v = None \/ exists msgs, v = Some (wrap_all msgs ErrServerClosed).
Proof.
  unfold onDone. destruct v as [e|]; simpl.
  - destruct (errors_Is_chain e ErrServerClosed) eqn:H.
    + split; [|reflexivity]. intros _. right.
      apply wrap_all_closed in H as (msgs & ->). eauto.
    + split; [discriminate|]. intros [H'|(msgs & H')]; [discriminate|].
      injection H' as ->.
      assert (K : errors_Is_chain (wrap_all msgs ErrServerClosed) ErrServerClosed = true)
        by (apply wrap_all_closed; eauto).
      congruence.
  - split; auto.
Qed.

Section Ending.

Context {E : server.Engine} {P : Platform}.

(** After a set-up that went through, once [Serve] returns [v] and the
    value is handed over, the process exits 0 exactly when [v] is nil or
    is the sentinel [http.ErrServerClosed], bare or wrapped to any depth;
    for every other [v] it exits 1. *)
Theorem exit_ok_iff (opt : option_) (args : list string) (s : server.Server)
    (pre : list action) (v : option error) :
  setup_succeeded opt s -> parses_to opt args ->
  (forall w, ~ In (ServeReturns w) pre) ->
  let sched := (pre ++ [ServeStart; ServeReturns v; DoneHandoff])%list in
  (snd (run sched) = Some exitOK <->
   v = None \/ exists msgs, v = Some (wrap_all msgs ErrServerClosed))
  /\ (snd (run sched) = Some exitOK \/ snd (run sched) = Some exitError).
Proof.
  intros Hok Hp Hn sched.
  pose proof (runServer_serve_returns args opt s pre v Hok Hn) as R.
  fold sched in R.
  rewrite (run_exit opt args sched Hp), R.
  rewrite <- onDone_nil_iff.
  destruct (onDone v) as [e|]; cbn.
  - split; [|now right]. split; discriminate.
  - split; [|now left]. split; reflexivity.
Qed.

(** While [Serve] has not returned, [runServer] does not return: no
    signal and no result of [Stop] ends the process. *)
Theorem no_serve_return_blocks (opt : option_) (args : list string)
    (s : server.Server) (sched : list action) :
  setup_succeeded opt s ->
  (forall w, ~ In (ServeReturns w) sched) ->
  snd (runServer args opt sched) = Blocked
  /\ (parses_to opt args -> snd (run sched) = None).
Proof.
  intros Hok Hn.
  assert (R : snd (runServer args opt sched) = Blocked).
  { destruct (setup_succeeded_run opt s Hok) as (t & Hs & _).
    rewrite (runServer_launched args opt sched t s Hs). cbn [snd].
    destruct (exec_serving opt context.Background sched (spawned t) Hn
                (spawned_select t) (or_introl (spawned_serve t))) as (-> & _).
    reflexivity. }
  split; [exact R|].
  intro Hp. now rewrite (run_exit opt args sched Hp), R.
Qed.

End Ending.

(** ** The two goroutines *)

Lemma quiet_no_calls (t : list event) :
  (forall e, In e t -> is_launch e = false) ->
  filter is_stop_call t = [] /\ filter is_serve_call t = [].
Proof.
  induction t as [|e t IH]; intro H; [split; reflexivity|].
  destruct IH as (IH1 & IH2); [intros e' He'; apply H; now right|].
  pose proof (H e (or_introl eq_refl)) as He.
  destruct e; simpl in *; try discriminate; auto.
Qed.

Section Goroutines.

Context {E : server.Engine} {P : Platform}.
Variables (opt : option_) (ctx : context.Context).

Lemma step_accounted a st st' :
  step opt ctx a st = Some st' -> calls_accounted st -> calls_accounted st'.
Proof.
  unfold step, say, calls_accounted.
  destruct (main_ st); [|discriminate].
  destruct a as [sg| |r| |r| ].
  - destruct (interrupt st); intros [= <-]; auto.
  - destruct (watch st); try discriminate.
    destruct (interrupt st); [|discriminate].
    intros [= <-] (H1 & H2). cbn [log watch serve].
    rewrite !filter_app, !length_app, H1, H2. cbn. split; lia.
  - destruct (watch st); try discriminate.
    intros [= <-] (H1 & H2). cbn [log watch serve].
    destruct r; rewrite ?filter_app, ?length_app, ?H1, ?H2; cbn; split; lia.
  - destruct (serve st); try discriminate.
    intros [= <-] (H1 & H2). cbn [log watch serve].
    rewrite !filter_app, !length_app, H1, H2. cbn. split; lia.
  - destruct (serve st); try discriminate.
    intros [= <-] (H1 & H2). cbn [log watch serve]. auto.
  - destruct (serve st); try discriminate.
    intros [= <-] (H1 & H2). cbn [log watch serve]. auto.
Qed.

Lemma exec_accounted sched st :
  calls_accounted st -> calls_accounted (exec opt ctx sched st).
Proof.
  revert st. induction sched as [|a sched IH]; intros st H; [exact H|].
  simpl. destruct (step opt ctx a st) as [st'|] eqn:Hs; [|now apply IH].
  apply IH. exact (step_accounted a st st' Hs H).
Qed.

Lemma spawned_accounted t :
  (forall e, In e t -> is_launch e = false) -> calls_accounted (spawned t).
Proof.
  intro H. destruct (quiet_no_calls t H) as (H1 & H2).
  unfold calls_accounted, spawned. cbn [log watch serve].
  rewrite !filter_app, H1, H2. split; reflexivity.
Qed.

(** A step appends events of the serving phase of [opt] only. *)
Lemma step_log_serving a st st' :
  step opt ctx a st = Some st' ->
  exists es, log st' = (log st ++ es)%list /\ Forall (serving_event opt ctx) es.
Proof.
  unfold step, say.
  destruct (main_ st); [|discriminate].
  destruct a as [s| |r| |r| ].
  - destruct (interrupt st); intros [= <-]; exists []; simpl;
      rewrite ?app_nil_r; auto.
  - destruct (watch st); try discriminate.
    destruct (interrupt st); [|discriminate].
    intros [= <-]. eexists; split; [reflexivity|].
    repeat constructor.
  - destruct (watch st); try discriminate.
    intros [= <-]. destruct r; simpl.
    + eexists; split; [reflexivity|]. repeat constructor.
    + exists []. rewrite app_nil_r. auto.
  - destruct (serve st); try discriminate.
    intros [= <-]. eexists; split; [reflexivity|]. repeat constructor.
  - destruct (serve st); try discriminate.
    intros [= <-]. exists []. simpl. rewrite app_nil_r. auto.
  - destruct (serve st); try discriminate.
    intros [= <-]. exists []. simpl. rewrite app_nil_r. auto.
Qed.

Lemma exec_log_serving sched st :
  exists es, log (exec opt ctx sched st) = (log st ++ es)%list
             /\ Forall (serving_event opt ctx) es.
Proof.
  revert st. induction sched as [|a sched IH]; intro st; simpl.
  - exists []. rewrite app_nil_r. auto.
  - destruct (step opt ctx a st) as [st'|] eqn:Hs; [|apply IH].
    destruct (step_log_serving a st st' Hs) as (es1 & Hl1 & H1).
    destruct (IH st') as (es2 & Hl2 & H2).
    exists (es1 ++ es2)%list. rewrite Hl2, Hl1, app_assoc. split; [reflexivity|].
    now apply Forall_app.
Qed.

(** The first call to [Serve] comes with its two announcements. *)
Lemma exec_serve_start sched st e :
  (forall e', In e' (log st) -> is_serve_call e' = false) ->
  In e (log (exec opt ctx sched st)) -> is_serve_call e = true ->
  exists t1 t2,
    log (exec opt ctx sched st) = (t1 ++ serve_start_events opt ctx ++ t2)%list.
Proof.
  revert st. induction sched as [|a sched IH]; intros st Hq Hin He; simpl in *.
  - rewrite (Hq e Hin) in He. discriminate.
  - destruct (step opt ctx a st) as [st'|] eqn:Hs; [|now apply IH].
    assert (K : (forall e', In e' (log st') -> is_serve_call e' = false)
                \/ log st' = (log st ++ serve_start_events opt ctx)%list).
    { unfold step, say in Hs. destruct (main_ st); [|discriminate].
      destruct a as [s| |r| |r| ].
      - left. destruct (interrupt st); injection Hs as <-; exact Hq.
      - left. destruct (watch st); try discriminate.
        destruct (interrupt st); [|discriminate].
        injection Hs as <-. cbn [log]. intros e' He'.
        apply in_app_or in He' as [He'|He']; [now apply Hq|].
        simpl in He'. intuition (subst; reflexivity).
      - left. destruct (watch st); try discriminate.
        injection Hs as <-. cbn [log]. destruct r; [|exact Hq].
        intros e' He'.
        apply in_app_or in He' as [He'|He']; [now apply Hq|].
        simpl in He'. intuition (subst; reflexivity).
      - right. destruct (serve st); try discriminate.
        injection Hs as <-. reflexivity.
      - left. destruct (serve st); try discriminate.
        injection Hs as <-. exact Hq.
      - left. destruct (serve st); try discriminate.
        injection Hs as <-. exact Hq. }
    destruct K as [K|K]; [now apply IH|].
    destruct (exec_log opt ctx sched st') as (es & Hl & _).
    exists (log st), es. now rewrite Hl, K, <- app_assoc.
Qed.

(** [Stop] is called for the signal found in the channel, which is the
    first one delivered. *)
Lemma exec_stop_signal sched st e :
  watch st = WatchSelect ->
  (forall e', In e' (log st) -> is_stop_call e' = false) ->
  In e (log (exec opt ctx sched st)) -> is_stop_call e = true ->
  exists s,
    (interrupt st = Some s \/ (interrupt st = None /\ first_signal sched = Some s))
    /\ In (receive_line s) (log (exec opt ctx sched st)).
Proof.
  revert st. induction sched as [|a sched IH]; intros st Hw Hq Hin He; simpl in *.
  - rewrite (Hq e Hin) in He. discriminate.
  - destruct (main_ st) as [|r0] eqn:Hm.
    2:{ rewrite (step_returned opt ctx a st r0 Hm) in *.
        rewrite (exec_returned opt ctx sched st r0 Hm) in Hin.
        rewrite (Hq e Hin) in He. discriminate. }
    unfold step in *. rewrite Hm in *.
    destruct a as [s| |r| |r| ].
    + destruct (interrupt st) as [s0|] eqn:Hi.
      * destruct (IH st Hw Hq Hin He) as (s1 & [H1|(H1 & _)] & H2);
          [|congruence]. exists s1. split; [left; congruence | exact H2].
      * match type of Hin with
        | In _ (log (exec opt ctx sched ?st1)) =>
            destruct (IH st1 Hw Hq Hin He) as (s1 & [H1|(H1 & _)] & H2);
              [|discriminate]
        end.
        cbn [interrupt] in H1. injection H1 as ->.
        exists s1. split; [now right | exact H2].
    + rewrite Hw in *. destruct (interrupt st) as [s0|] eqn:Hi.
      * exists s0. split; [now left|].
        match goal with
        | |- In _ (log (exec opt ctx sched ?st1)) =>
            destruct (exec_log opt ctx sched st1) as (es & -> & _)
        end.
        apply in_or_app. left. cbn [log]. unfold say.
        apply in_or_app. right. now left.
      * destruct (IH st Hw Hq Hin He) as (s1 & [H1|(H1 & K)] & H2);
          [congruence|].
        exists s1. split; [now right | exact H2].
    + rewrite Hw in *.
      destruct (IH st Hw Hq Hin He) as (s1 & H1 & H2). eauto.
    + destruct (serve st) eqn:Hsv.
      2-4: destruct (IH st Hw Hq Hin He) as (s1 & H1 & H2); eauto.
      match type of Hin with
      | In _ (log (exec opt ctx sched ?st1)) =>
          destruct (IH st1) as (s1 & H1 & H2); [exact Hw| |exact Hin|exact He|]
      end.
      * cbn [log]. unfold say. intros e' He'.
        apply in_app_or in He' as [He'|He']; [now apply Hq|].
        simpl in He'. intuition (subst; reflexivity).
      * cbn [interrupt] in H1. eauto.
    + destruct (serve st) eqn:Hsv.
      1,3,4: destruct (IH st Hw Hq Hin He) as (s1 & H1 & H2); eauto.
      match type of Hin with
      | In _ (log (exec opt ctx sched ?st1)) =>
          destruct (IH st1 Hw Hq Hin He) as (s1 & H1 & H2)
      end.
      cbn [interrupt] in H1. eauto.
    + destruct (serve st) eqn:Hsv.
      1,2,4: destruct (IH st Hw Hq Hin He) as (s1 & H1 & H2); eauto.
      match type of Hin with
      | In _ (log (exec opt ctx sched ?st1)) =>
          destruct (IH st1 Hw Hq Hin He) as (s1 & H1 & H2)
      end.
      cbn [interrupt] in H1. eauto.
Qed.

End Goroutines.

Section Watcher.

Context {E : server.Engine} {P : Platform}.

Lemma setup_quiet opt t x :
  runServer_setup opt = (t, x) -> forall e, In e t -> is_launch e = false.
Proof.
  intros Hs e He. apply (setup_log_quiet opt). now rewrite Hs.
Qed.

Lemma spawned_no_calls t :
  (forall e, In e t -> is_launch e = false) ->
  forall e, In e (log (spawned t)) ->
            is_stop_call e = false /\ is_serve_call e = false.
Proof.
  intros H e He. unfold spawned in He. cbn [log] in He.
  apply in_app_or in He as [He|He].
  - specialize (H e He). destruct e; simpl in *; try discriminate; auto.
  - simpl in He. intuition (subst; reflexivity).
Qed.

(** In every run [Stop] is called at most once and [Serve] at most
    once: the signal-watch goroutine handles one signal and ends, and
    neither call is ever retried. *)
Theorem stop_and_serve_called_at_most_once (opt : option_) (args : list string)
    (sched : list action) :
  length (filter is_stop_call (fst (runServer args opt sched))) <= 1
  /\ length (filter is_serve_call (fst (runServer args opt sched))) <= 1.
Proof.
  unfold runServer.
  destruct (runServer_setup opt) as [t [s|r]] eqn:Hs; cbn [fst].
  - destruct (exec_accounted opt context.Background sched (spawned t)
                (spawned_accounted t (setup_quiet opt t _ Hs))) as (H1 & H2).
    rewrite H1, H2.
    destruct (watch _), (serve _); split; lia.
  - destruct (quiet_no_calls t (setup_quiet opt t _ Hs)) as (-> & ->).
    split; apply Nat.le_0_l.
Qed.

(** [Stop] is called only after a signal was delivered, and the signal
    the process reports before calling it is the first one delivered:
    a signal that arrives while one is pending is dropped. *)
Theorem stop_follows_first_signal (opt : option_) (args : list string)
    (sched : list action) (ctx : context.Context) :
  In (CallStop ctx) (fst (runServer args opt sched)) ->
  exists s, first_signal sched = Some s
            /\ In (receive_line s) (fst (runServer args opt sched)).
Proof.
  unfold runServer.
  destruct (runServer_setup opt) as [t [s|r]] eqn:Hs; cbn [fst]; intro Hin.
  - destruct (exec_stop_signal opt context.Background sched (spawned t)
                (CallStop ctx) eq_refl
                (fun e He => proj1 (spawned_no_calls t (setup_quiet opt t _ Hs) e He))
                Hin eq_refl) as (sg & [H1|(_ & H1)] & H2).
    + discriminate.
    + eauto.
  - apply (setup_quiet opt t _ Hs) in Hin. discriminate.
Qed.

(** [Serve] is called with the background context on [Host:HTTPPort] and
    [Host:GRPCPort], and the call comes right after the two lines that
    announce these addresses. *)
Theorem serve_called_on_announced_addresses (opt : option_) (args : list string)
    (sched : list action) (c : context.Context) (h g : string) :
  In (CallServe c h g) (fst (runServer args opt sched)) ->
  c = context.Background
  /\ h = listen_addr opt (HTTPPort opt) /\ g = listen_addr opt (GRPCPort opt)
  /\ exists t1 t2,
       fst (runServer args opt sched)
       = (t1 ++ serve_start_events opt context.Background ++ t2)%list.
Proof.
  unfold runServer.
  destruct (runServer_setup opt) as [t [s|r]] eqn:Hs; cbn [fst]; intro Hin.
  - pose proof (spawned_no_calls t (setup_quiet opt t _ Hs)) as Hq.
    assert (A : c = context.Background
                /\ h = listen_addr opt (HTTPPort opt)
                /\ g = listen_addr opt (GRPCPort opt)).
    { destruct (exec_log_serving opt context.Background sched (spawned t))
        as (es & Hl & Hes).
      rewrite Hl in Hin. apply in_app_or in Hin as [Hin|Hin].
      - destruct (Hq _ Hin) as (_ & K). discriminate.
      - rewrite Forall_forall in Hes. exact (Hes _ Hin). }
    destruct A as (-> & -> & ->). repeat split.
    exact (exec_serve_start opt context.Background sched (spawned t) _
             (fun e He => proj2 (Hq e He)) Hin eq_refl).
  - apply (setup_quiet opt t _ Hs) in Hin. discriminate.
Qed.

(** The tasks of the signal-watch goroutine leave the serve goroutine
    and the [select] where they are. *)
Lemma step_watch_action opt ctx a st st' :
  is_serve_action a = false -> step opt ctx a st = Some st' -> same_serve st' st.
Proof.
  unfold step, same_serve. destruct (main_ st) eqn:Hm; [|discriminate].
  destruct a as [s| |r| |r| ]; try discriminate; intros _.
  - destruct (interrupt st); intros [= <-]; cbn; auto.
  - destruct (watch st); try discriminate.
    destruct (interrupt st); [|discriminate]. intros [= <-]; cbn; auto.
  - destruct (watch st); try discriminate. intros [= <-]; cbn; auto.
Qed.

Lemma step_serve_action opt ctx a st st' :
  is_serve_action a = true -> same_serve st st' ->
  match step opt ctx a st, step opt ctx a st' with
  | Some x, Some y => same_serve x y
  | None, None => True
  | _, _ => False
  end.
Proof.
  unfold step, same_serve. intros Ha (Hs & Hm). rewrite <- Hm, <- Hs.
  destruct (main_ st); [|exact I].
  destruct a; try discriminate; destruct (serve st); cbn; auto.
Qed.

Lemma exec_same_serve opt ctx sched st st' :
  same_serve st st' ->
  same_serve (exec opt ctx sched st)
             (exec opt ctx (filter is_serve_action sched) st').
Proof.
  revert st st'. induction sched as [|a sched IH]; intros st st' H; [exact H|].
  simpl. destruct (is_serve_action a) eqn:Ha.
  - simpl. pose proof (step_serve_action opt ctx a st st' Ha H) as K.
    destruct (step opt ctx a st), (step opt ctx a st');
      try contradiction; now apply IH.
  - destruct (step opt ctx a st) as [st1|] eqn:Hs; [|now apply IH].
    apply IH. destruct (step_watch_action opt ctx a st st1 Ha Hs) as (K1 & K2).
    destruct H as (H1 & H2). split; congruence.
Qed.

(** The result of [runServer] and the exit code are those of the run
    without the signals, the signal-watch goroutine and [Stop]: they
    depend on the serve goroutine alone. *)
Theorem watcher_cannot_change_result (opt : option_) (args : list string)
    (sched : list action) :
  snd (runServer args opt sched)
  = snd (runServer args opt (filter is_serve_action sched))
  /\ snd (run sched) = snd (run (filter is_serve_action sched)).
Proof.
  assert (R : forall args' opt',
             snd (runServer args' opt' sched)
             = snd (runServer args' opt' (filter is_serve_action sched))).
  { intros args' opt'. unfold runServer.
    destruct (runServer_setup opt') as [t [s|r]]; [|reflexivity].
    cbn [snd].
    destruct (exec_same_serve opt' context.Background sched
                (spawned t) (spawned t) (conj eq_refl eq_refl)) as (_ & ->).
    reflexivity. }
  split; [apply R|]. apply run_exit_congruence. exact R.
Qed.

End Watcher.

(** ** The set-up calls *)

Lemma runtime_filter_setup ctx (es : list event) :
  Forall (runtime_event ctx) es -> filter is_engine_setup es = [].
Proof.
  induction 1 as [|e es He _ IH]; [reflexivity|].
  destruct e; simpl in *; try contradiction; exact IH.
Qed.

Lemma eqb_empty_true (s : string) : s = "" -> (s =? "") = true.
Proof. intros ->. reflexivity. Qed.

Lemma string_length_app (a b : string) :
  String.length (a ++ b) = String.length a + String.length b.
Proof. induction a as [|c a IH]; simpl; [reflexivity | now rewrite IH]. Qed.

Lemma append_inj_r (a b s : string) : a ++ s = b ++ s -> a = b.
Proof.
  revert b. induction a as [|c a IH]; intros [|c' b] H; simpl in H.
  - reflexivity.
  - apply (f_equal String.length) in H. simpl in H.
    rewrite string_length_app in H. lia.
  - apply (f_equal String.length) in H. simpl in H.
    rewrite string_length_app in H. lia.
  - injection H as -> H. f_equal. now apply IH.
Qed.

Section SetupCalls.

Context {E : server.Engine} {P : Platform}.

Lemma launched_succeeded opt t s :
  runServer_setup opt = (t, Next s) -> setup_succeeded opt s.
Proof.
  intro Hs. pose proof (setup_outcomes opt) as O. rewrite Hs in O.
  inversion O; subst.
  - left. split; assumption.
  - right. split; [assumption|]. eauto.
Qed.

(** Two different database files never get the same storage handle. *)
Theorem storage_handles_distinct (o1 o2 : option_) :
  Database o1 <> "" -> Database o2 <> "" ->
  runServer_db o1 = runServer_db o2 -> Database o1 = Database o2.
Proof.
  unfold runServer_db. intros H1 H2.
  rewrite (eqb_empty_false _ H1), (eqb_empty_false _ H2).
  simpl. intro H. injection H as H. exact (append_inj_r _ _ _ H).
Qed.

Lemma filter_firstn_all {A : Type} (p : A -> bool) (l : list A) (k : nat) :
  (forall x, In x l -> p x = true) -> filter p (firstn k l) = firstn k l.
Proof.
  revert k. induction l as [|x l IH]; intros [|k] H; try reflexivity.
  simpl. rewrite (H x (or_introl eq_refl)). f_equal.
  apply IH. intros y Hy. apply H. now right.
Qed.

Lemma setup_calls_are_setup opt e :
  In e (setup_calls opt) -> is_engine_setup e = true.
Proof.
  unfold setup_calls, calls_before_file_seed, call_file_seed.
  destruct (negb (DataFromYAML opt =? "")); simpl;
    intuition (subst; reflexivity).
Qed.

(** A call that fails ends the set-up: the calls made are those up to
    and including it, and its error is what the set-up returns. *)
Lemma call_fails_setup opt i e :
  call_fails opt i e ->
  runServer_setup opt = (firstn (S i) (setup_calls opt), Return (Some e)).
Proof.
  intro H. pose proof (setup_outcomes opt) as O.
  destruct i as [|[|[|[|[|[|i]]]]]]; simpl in H; try contradiction;
    inversion O; open_stages; try congruence;
    match goal with
    | |- (_, Return (Some ?x)) = _ => assert (Hx : x = e) by congruence; rewrite Hx
    end;
    unfold setup_calls;
    try match goal with
        | Hy : DataFromYAML opt <> "" |- _ => rewrite (eqb_empty_false _ Hy)
        end;
    reflexivity.
Qed.

(** A set-up that goes through has made every call of the sequence. *)
Lemma setup_succeeded_calls opt s :
  setup_succeeded opt s -> runServer_setup opt = (setup_calls opt, Next s).
Proof.
  intro H. pose proof (setup_outcomes opt) as O. unfold setup_calls.
  inversion O; destruct H as [H|H]; open_stages; try congruence;
    match goal with
    | |- (_, Next ?x) = _ => assert (Hx : x = s) by congruence; rewrite Hx
    end.
  - match goal with
    | Hy : DataFromYAML opt = "" |- _ => rewrite (eqb_empty_true _ Hy)
    end.
    cbn [negb]. now rewrite app_nil_r.
  - match goal with
    | Hy : DataFromYAML opt <> "" |- _ => rewrite (eqb_empty_false _ Hy)
    end.
    reflexivity.
Qed.

(** The calls that build, configure and seed the engine are made in one
    fixed order, each at most once, and stop at the first that fails:
    in every log they are an initial part of [New], [SetProject],
    [Load] of the structured seed, [SetLogLevel], [SetLogFormat] and,
    for a configured path, [Load] of the file seed.  The part is not
    empty once the two early returns are passed, and it is the whole
    sequence in every log that holds a launch event.  When the call
    number [i] is reached and fails, the calls made are exactly the
    first [i + 1] of the sequence, none after the failing one, and its
    error is what [runServer] returns; when every call succeeds, the
    calls made are the whole sequence. *)
Theorem setup_calls_in_order (opt : option_) (args : list string)
    (sched : list action) :
  (exists k,
    filter is_engine_setup (fst (runServer args opt sched)) = firstn k (setup_calls opt)
    /\ (Version opt = false -> Project opt <> "" -> 1 <= k)
    /\ ((exists e, In e (fst (runServer args opt sched)) /\ is_launch e = true) ->
        firstn k (setup_calls opt) = setup_calls opt))
  /\ (forall i e,
        call_fails opt i e ->
        filter is_engine_setup (fst (runServer args opt sched))
        = firstn (S i) (setup_calls opt)
        /\ fst (runServer args opt sched) = firstn (S i) (setup_calls opt)
        /\ snd (runServer args opt sched) = Returned (Some e))
  /\ (forall s,
        setup_succeeded opt s ->
        filter is_engine_setup (fst (runServer args opt sched)) = setup_calls opt).
Proof.
  destruct (runServer_log args opt sched) as (es & Hl & Hes).
  assert (Hf : filter is_engine_setup es = []).
  { destruct (snd (runServer_setup opt)).
    - destruct Hes as (rt & -> & Hrt). rewrite filter_app.
      now rewrite (runtime_filter_setup context.Background rt Hrt).
    - now subst es. }
  assert (Hq : (exists e, In e (fst (runServer args opt sched)) /\ is_launch e = true) ->
               exists s, snd (runServer_setup opt) = Next s).
  { intros (e & He & Hle). rewrite Hl in He.
    apply in_app_or in He as [He|He].
    - apply setup_log_quiet in He. congruence.
    - destruct (snd (runServer_setup opt)); [eauto|]. now subst es. }
  assert (Hfs : filter is_engine_setup (fst (runServer args opt sched))
                = filter is_engine_setup (fst (runServer_setup opt)))
    by now rewrite Hl, filter_app, Hf, app_nil_r.
  split; [|split].
  - rewrite Hfs. clear Hfs Hl Hf Hes es.
    pose proof (setup_outcomes opt) as O. unfold setup_calls.
    inversion O as [Hv|Hv Hp|e Hv Hp H0|s0 s e C H1|s1 s e C H2|s2 s e C H3
                    |s3 s e C H4|s4 s e C Hy H5|s4 C Hy|s4 s C Hy H5];
      match goal with H : _ = runServer_setup opt |- _ => rewrite <- H in * end;
      cbn [fst snd] in *.
    + exists 0. repeat split; try congruence.
      intro K. destruct (Hq K) as (s & Hs). discriminate.
    + exists 0. repeat split; try congruence.
      intro K. destruct (Hq K) as (s & Hs). discriminate.
    + exists 1. repeat split; try lia.
      intro K. destruct (Hq K) as (s & Hs). discriminate.
    + exists 2. repeat split; try lia.
      intro K. destruct (Hq K) as (s' & Hs). discriminate.
    + exists 3. repeat split; try lia.
      intro K. destruct (Hq K) as (s' & Hs). discriminate.
    + exists 4. repeat split; try lia.
      intro K. destruct (Hq K) as (s' & Hs). discriminate.
    + exists 5. repeat split; try lia.
      intro K. destruct (Hq K) as (s' & Hs). discriminate.
    + exists 6. rewrite (eqb_empty_false _ Hy). repeat split; try lia.
    + exists 5. rewrite (eqb_empty_true _ Hy). repeat split; try lia.
    + exists 6. rewrite (eqb_empty_false _ Hy). repeat split; try lia.
  - intros i e H. pose proof (call_fails_setup opt i e H) as R.
    rewrite (runServer_early args opt sched _ _ R). cbn [fst snd].
    split; [|split; reflexivity].
    apply filter_firstn_all. apply setup_calls_are_setup.
  - intros s H. rewrite Hfs, (setup_succeeded_calls opt s H). cbn [fst].
    rewrite <- (firstn_all (setup_calls opt)).
    apply filter_firstn_all. apply setup_calls_are_setup.
Qed.

(** When [server.New], [SetProject], [SetLogLevel] or [SetLogFormat]
    gives an error, [runServer] returns that error for every schedule,
    the file seed is never applied, nothing is launched, and the
    process exits 1. *)
Theorem setup_call_error_aborts (opt : option_) (args : list string)
    (sched : list action) (e : error) :
  setup_call_failed opt e ->
  snd (runServer args opt sched) = Returned (Some e)
  /\ (forall ev, In ev (fst (runServer args opt sched)) -> is_launch ev = false)
  /\ ~ In (call_file_seed opt) (fst (runServer args opt sched))
  /\ (parses_to opt args -> snd (run sched) = Some exitError).
Proof.
  intro H.
  assert (R : exists t, runServer_setup opt = (t, Return (Some e))
                        /\ ~ In (call_file_seed opt) t).
  { pose proof (setup_outcomes opt) as O. unfold setup_call_failed in H.
    inversion O; destruct H as [H|[H|[H|H]]]; open_stages; try congruence;
      match goal with
      | |- exists t, (_, Return (Some ?x)) = _ /\ _ =>
          assert (Hx : x = e) by congruence; rewrite Hx
      end;
      (eexists; split; [reflexivity|]);
      unfold call_file_seed; simpl; intuition discriminate. }
  destruct R as (t & R & Hn).
  rewrite (runServer_early args opt sched t (Some e) R). cbn [fst snd].
  split; [reflexivity|]. split; [exact (setup_quiet opt t _ R)|].
  split; [exact Hn|].
  intro Hp. rewrite (run_exit opt args sched Hp).
  now rewrite (runServer_early args opt sched t (Some e) R).
Qed.

(** [run] hands 0 or 1 to [os.Exit], and it has not exited only while
    [runServer] is in its [select] after a set-up that went through:
    every parse failure and every set-up failure ends the process
    whatever the schedule. *)
Theorem run_blocks_only_while_serving (sched : list action) :
  (snd (run sched) = Some exitOK \/ snd (run sched) = Some exitError
   \/ snd (run sched) = None)
  /\ (snd (run sched) = None ->
      exists opt args s,
        parses_to opt args /\ setup_succeeded opt s
        /\ snd (runServer args opt sched) = Blocked).
Proof.
  unfold run.
  destruct parseEnv as [opt0 [e|]] eqn:He; [split; [auto | discriminate]|].
  destruct (parseOpt opt0) as [[opt args] [e|]] eqn:Ho.
  - destruct e as [|ty msg|msg|msg inner]; try (split; [auto | discriminate]).
    destruct (flags.ErrorType_eqb ty flags.ErrHelp); split; auto; discriminate.
  - destruct (runServer args opt sched) as [t [|[e|]]] eqn:Hr; cbn [snd];
      try (split; [auto | discriminate]).
    split; [auto|]. intros _.
    assert (Hp : parses_to opt args) by (exists opt0; auto).
    unfold runServer in Hr.
    destruct (runServer_setup opt) as [t0 [s|r]] eqn:Hs; [|discriminate].
    exists opt, args, s. split; [exact Hp|].
    split; [exact (launched_succeeded opt t0 s Hs)|].
    rewrite (runServer_launched args opt sched t0 s Hs). cbn [snd].
    injection Hr as _ Hr. exact Hr.
Qed.

End SetupCalls.

(** ** The hand-off on [done] *)

Section Handoff.

Context {E : server.Engine} {P : Platform}.

(** The serve goroutine has finished exactly when [runServer] has
    returned. *)
Lemma step_exit_together opt ctx a st st' :
  step opt ctx a st = Some st' ->
  (serve st = ServeExit <-> exists r, main_ st = MainReturn r) ->
  (serve st' = ServeExit <-> exists r, main_ st' = MainReturn r).
Proof.
  unfold step. destruct (main_ st) eqn:Hm; [|discriminate].
  intros Hs H.
  assert (Hne : serve st <> ServeExit).
  { intro K. apply H in K as (r & K). discriminate. }
  destruct a as [s| |r| |r| ].
  - destruct (interrupt st); injection Hs as <-; cbn [serve main_];
      try rewrite Hm; split; [contradiction | intros (r & K); discriminate
                             | contradiction | intros (r & K); discriminate].
  - destruct (watch st); try discriminate.
    destruct (interrupt st); [|discriminate].
    injection Hs as <-. cbn [serve main_].
    split; [contradiction | intros (r & K); discriminate].
  - destruct (watch st); try discriminate.
    injection Hs as <-. cbn [serve main_].
    split; [contradiction | intros (r' & K); discriminate].
  - destruct (serve st); try discriminate.
    injection Hs as <-. cbn [serve main_].
    split; [discriminate | intros (r & K); discriminate].
  - destruct (serve st); try discriminate.
    injection Hs as <-. cbn [serve main_].
    split; [discriminate | intros (r' & K); discriminate].
  - destruct (serve st); try discriminate.
    injection Hs as <-. cbn [serve main_].
    split; [eauto | reflexivity].
Qed.

Lemma exec_exit_together opt ctx sched st :
  (serve st = ServeExit <-> exists r, main_ st = MainReturn r) ->
  (serve (exec opt ctx sched st) = ServeExit
   <-> exists r, main_ (exec opt ctx sched st) = MainReturn r).
Proof.
  revert st. induction sched as [|a sched IH]; intros st H; [exact H|].
  simpl. destruct (step opt ctx a st) as [st'|] eqn:Hs; [|now apply IH].
  apply IH. exact (step_exit_together opt ctx a st st' Hs H).
Qed.

Lemma spawned_exit_together t :
  serve (spawned t) = ServeExit <-> exists r, main_ (spawned t) = MainReturn r.
Proof. cbn. split; [discriminate | intros (r & K); discriminate]. Qed.

(** While [runServer] is in its [select], the hand-off on [done] is
    never lost: however far the run has got, as soon as [Serve] has
    returned and the value meets the [select], [runServer] returns. *)
Theorem handoff_always_possible (opt : option_) (args : list string)
    (pre : list action) (v : option error) :
  snd (runServer args opt pre) = Blocked ->
  exists r,
    snd (runServer args opt (pre ++ [ServeStart; ServeReturns v; DoneHandoff]))
    = Returned r.
Proof.
  unfold runServer.
  destruct (runServer_setup opt) as [t [s|r]]; [|discriminate].
  cbn [snd]. rewrite exec_app.
  pose proof (exec_exit_together opt context.Background pre (spawned t)
                (spawned_exit_together t)) as J.
  set (st := exec opt context.Background pre (spawned t)) in *.
  destruct (main_ st) as [|r0] eqn:Hm; [|discriminate]. intros _.
  destruct (serve st) as [| |v0|] eqn:Hsv.
  - exists (onDone v).
    now rewrite (exec_serve_returns opt context.Background st v Hm (or_introl Hsv)).
  - exists (onDone v).
    now rewrite (exec_serve_returns opt context.Background st v Hm (or_intror Hsv)).
  - exists (onDone v0). simpl. unfold step. rewrite Hm, Hsv. reflexivity.
  - destruct (proj1 J eq_refl) as (r1 & K). discriminate.
Qed.

(** [runServer] returns from its [select] only after the serve
    goroutine has announced the two addresses and called [Serve]: the
    log of a run that returned after a set-up that went through holds
    exactly one call to [Serve]. *)
Theorem return_implies_served (opt : option_) (args : list string)
    (s : server.Server) (sched : list action) (r : option error) :
  setup_succeeded opt s ->
  snd (runServer args opt sched) = Returned r ->
  length (filter is_serve_call (fst (runServer args opt sched))) = 1.
Proof.
  intros Hok.
  destruct (setup_succeeded_run opt s Hok) as (t & Hs & _).
  rewrite (runServer_launched args opt sched t s Hs). cbn [fst snd].
  pose proof (exec_exit_together opt context.Background sched (spawned t)
                (spawned_exit_together t)) as J.
  destruct (exec_accounted opt context.Background sched (spawned t)
              (spawned_accounted t (setup_quiet opt t _ Hs))) as (_ & H2).
  destruct (main_ (exec opt context.Background sched (spawned t))) as [|r0];
    [discriminate|].
  intros _. rewrite H2. now rewrite (proj2 J (ex_intro _ r0 eq_refl)).
Qed.

End Handoff.

(** ** The further properties on the test engines *)

Lemma exit_ok_iff_witness :
  snd (@run testEngine (testPlatform cfg_proj1 None)
         (sched_stopping
          ++ [ServeStart;
              ServeReturns (Some (wrap_all ["serve: http: Server closed"] ErrServerClosed));
              DoneHandoff]))
  = Some exitOK.
Proof.
  apply (proj1 (@exit_ok_iff testEngine (testPlatform cfg_proj1 None) cfg_proj1 [] _
                  sched_stopping
                  (Some (wrap_all ["serve: http: Server closed"] ErrServerClosed))
                  proj1_setup_succeeded (test_parses cfg_proj1)
                  ltac:(intros w Hw; simpl in Hw; intuition discriminate))).
  right. exists ["serve: http: Server closed"]. reflexivity.
Defined.

Lemma no_serve_return_blocks_witness :
  snd (@run testEngine (testPlatform cfg_proj1 None)
         [ServeStart; Deliver SIGTERM; WatchReceive;
          StopReturns (Some (PlainError "context deadline exceeded")); DoneHandoff])
  = None.
Proof.
  apply (proj2 (@no_serve_return_blocks testEngine (testPlatform cfg_proj1 None)
                  cfg_proj1 [] _
                  [ServeStart; Deliver SIGTERM; WatchReceive;
                   StopReturns (Some (PlainError "context deadline exceeded"));
                   DoneHandoff]
                  proj1_setup_succeeded
                  ltac:(intros w Hw; simpl in Hw; intuition discriminate))).
  apply test_parses.
Defined.

Lemma stop_follows_first_signal_witness :
  exists s, first_signal sched_two_signals = Some s
            /\ In (receive_line s)
                  (fst (@runServer testEngine (testPlatform cfg_proj1 None) []
                          cfg_proj1 sched_two_signals)).
Proof.
  apply (@stop_follows_first_signal testEngine (testPlatform cfg_proj1 None)
           cfg_proj1 [] sched_two_signals context.Background).
  vm_compute. tauto.
Defined.

Lemma serve_called_on_announced_addresses_witness :
  exists t1 t2,
    fst (@runServer testEngine (testPlatform cfg_proj1 None) [] cfg_proj1 sched_graceful)
    = (t1 ++ serve_start_events cfg_proj1 context.Background ++ t2)%list.
Proof.
  apply (@serve_called_on_announced_addresses testEngine (testPlatform cfg_proj1 None)
           cfg_proj1 [] sched_graceful context.Background
           "0.0.0.0:9050" "0.0.0.0:9060").
  vm_compute. tauto.
Defined.

Lemma storage_handles_distinct_witness :
  Database cfg_seed_file
  = Database (mkOption "proj2" "ds2" "127.0.0.1" 8080 8081 "info" "json"
                "/var/lib/bq.db" "" false).
Proof.
  apply (@storage_handles_distinct testEngine cfg_seed_file
           (mkOption "proj2" "ds2" "127.0.0.1" 8080 8081 "info" "json"
              "/var/lib/bq.db" "" false));
    [discriminate | discriminate | reflexivity].
Defined.

Lemma bad_level_failed :
  @setup_call_failed pickyEngine cfg_bad_level (PlainError "unexpected log level verbose").
Proof.
  right. right. left.
  exists [server.StructSource (runServer_project cfg_bad_level)]. eexists.
  split; [|reflexivity].
  exists []. split; [|reflexivity].
  exists []. split; [|reflexivity].
  split; [reflexivity | split; [discriminate | reflexivity]].
Qed.

Lemma setup_call_error_aborts_witness :
  snd (@runServer pickyEngine (testPlatform cfg_bad_level None) [] cfg_bad_level
         sched_graceful)
  = Returned (Some (PlainError "unexpected log level verbose"))
  /\ snd (@run pickyEngine (testPlatform cfg_bad_level None) sched_graceful)
     = Some exitError.
Proof.
  pose proof (@setup_call_error_aborts pickyEngine (testPlatform cfg_bad_level None)
                cfg_bad_level [] sched_graceful _ bad_level_failed) as (H1 & _ & _ & H2).
  split; [exact H1 | exact (H2 (test_parses cfg_bad_level))].
Defined.

Lemma handoff_always_possible_witness :
  exists r,
    snd (@runServer testEngine (testPlatform cfg_proj1 None) [] cfg_proj1
           (sched_stopping
            ++ [ServeStart; ServeReturns (Some ErrServerClosed); DoneHandoff]))
    = Returned r.
Proof.
  apply (@handoff_always_possible testEngine (testPlatform cfg_proj1 None)
           cfg_proj1 [] sched_stopping (Some ErrServerClosed)).
  reflexivity.
Defined.

Lemma return_implies_served_witness :
  length (filter is_serve_call
            (fst (@runServer testEngine (testPlatform cfg_proj1 None) []
                    cfg_proj1 sched_bind_fails)))
  = 1.
Proof.
  apply (@return_implies_served testEngine (testPlatform cfg_proj1 None) cfg_proj1 []
           _ sched_bind_fails
           (Some (PlainError "listen tcp 0.0.0.0:9050: bind: address already in use"))
           proj1_setup_succeeded).
  reflexivity.
Defined.

Lemma bad_level_call_fails :
  @call_fails pickyEngine cfg_bad_level 3 (PlainError "unexpected log level verbose").
Proof.
  exists [server.StructSource (runServer_project cfg_bad_level)]. eexists.
  split; [|reflexivity].
  exists []. split; [|reflexivity].
  exists []. split; [|reflexivity].
  split; [reflexivity | split; [discriminate | reflexivity]].
Qed.

Lemma seed_file_setup_succeeded :
  @setup_succeeded testEngine cfg_seed_file
    [server.StructSource (runServer_project cfg_seed_file);
     server.YAMLSource "seed.yaml"].
Proof.
  right. split; [discriminate|].
  exists [server.StructSource (runServer_project cfg_seed_file)].
  split; [exact seed_file_format_set | reflexivity].
Qed.

Lemma setup_calls_in_order_witness :
  fst (@runServer pickyEngine (testPlatform cfg_bad_level None) [] cfg_bad_level
         sched_graceful)
  = [CallNew "file::memory:?cache=shared"; CallSetProject "proj1";
     CallLoad (server.StructSource (types.mkProject "proj1" []));
     CallSetLogLevel "verbose"]
  /\ snd (@runServer pickyEngine (testPlatform cfg_bad_level None) [] cfg_bad_level
            sched_graceful)
     = Returned (Some (PlainError "unexpected log level verbose"))
  /\ filter is_engine_setup
       (fst (@runServer testEngine (testPlatform cfg_seed_file None) [] cfg_seed_file
               sched_graceful))
     = [CallNew "file:/var/lib/bq.db?cache=shared"; CallSetProject "proj1";
        CallLoad (server.StructSource (types.mkProject "proj1" []));
        CallSetLogLevel "error"; CallSetLogFormat "console";
        CallLoad (server.YAMLSource "seed.yaml")].
Proof.
  pose proof (proj1 (proj2 (@setup_calls_in_order pickyEngine
                              (testPlatform cfg_bad_level None) cfg_bad_level []
                              sched_graceful))
                3 _ bad_level_call_fails) as (_ & H1 & H2).
  split; [exact H1|]. split; [exact H2|].
  exact (proj2 (proj2 (@setup_calls_in_order testEngine
                         (testPlatform cfg_seed_file None) cfg_seed_file []
                         sched_graceful))
           _ seed_file_setup_succeeded).
Defined.
